(** * qBitrr: the supervising process of [qBitrr/main.py]

    A shallow embedding of [qBitManager] (construction, version gate, liveness
    probe, worker aggregation, start/join) and of the module-level [run] and
    [cleanup], followed by the properties of the supervision logic.

    Python statements become computations in a state-and-exception monad.
    Everything the module reaches but does not define (the torrent client, the
    worker processes, the per-category [Arr] objects, the clock, the FFprobe
    downloader, the command line) is an oracle of the environment [Env]: it
    receives the events issued so far and answers with a value or an exception,
    so a collaborator may behave differently at every call. *)

From stdpp Require Import base gmap strings list.
From Stdlib Require Import ZArith Lia.

Local Open Scope string_scope.
Local Open Scope Z_scope.
Local Open Scope list_scope.

(** ** Versions ([packaging.version.Version]) *)

Module PackagingVersion.

(** The normalised pre-release letters; as Python strings, "a" < "b" < "rc". *)
Inductive pre_letter := LetterA | LetterB | LetterRC.

(** A parsed version: [epoch], [release] segments, and the optional
    pre-release, post-release and development segments.  The local segment
    ("+abc") is left out. *)
Record Version := mkVersion {
  epoch : N;
  release : list N;
  pre : option (pre_letter * N);
  post : option N;
  dev : option N }.

(** [VersionClass("4.3.4")], [VersionClass("4.4")] and friends. *)
Definition release_version (segments : list N) : Version :=
  {| epoch := 0%N; release := segments; pre := None; post := None; dev := None |}.

(** The sentinels [NegativeInfinity] and [Infinity] of [_cmpkey]. *)
Inductive ext (A : Type) := NegativeInfinity | Finite (a : A) | Infinity.
Arguments NegativeInfinity {A}.
Arguments Finite {A} a.
Arguments Infinity {A}.

(** [dropwhile (== 0)] on the reversed release: trailing zeros do not count. *)
Fixpoint strip_trailing_zeros (segments : list N) : list N :=
  match segments with
  | [] => []
  | x :: rest =>
      match strip_trailing_zeros rest with
      | [] => if (x =? 0)%N then [] else [x]
      | rest' => x :: rest'
      end
  end.

Record Key := mkKey {
  key_epoch : N;
  key_release : list N;
  key_pre : ext (pre_letter * N);
  key_post : ext N;
  key_dev : ext N }.

(** [_cmpkey]. *)
Definition cmpkey (v : Version) : Key :=
  {| key_epoch := epoch v;
     key_release := strip_trailing_zeros (release v);
     key_pre :=
       match pre v, post v, dev v with
       | None, None, Some _ => NegativeInfinity
       | None, _, _ => Infinity
       | Some p, _, _ => Finite p
       end;
     key_post := match post v with None => NegativeInfinity | Some n => Finite n end;
     key_dev := match dev v with None => Infinity | Some n => Finite n end |}.

(** Tuple comparison: the first component that differs decides. *)
Definition lex (c1 c2 : comparison) : comparison :=
  match c1 with Eq => c2 | _ => c1 end.

Fixpoint compare_tuple (xs ys : list N) : comparison :=
  match xs, ys with
  | [], [] => Eq
  | [], _ :: _ => Lt
  | _ :: _, [] => Gt
  | x :: xs', y :: ys' => lex (x ?= y)%N (compare_tuple xs' ys')
  end.

Definition letter_rank (l : pre_letter) : N :=
  match l with LetterA => 0 | LetterB => 1 | LetterRC => 2 end%N.

Definition compare_pre (p q : pre_letter * N) : comparison :=
  lex (letter_rank p.1 ?= letter_rank q.1)%N (p.2 ?= q.2)%N.

Definition compare_ext {A} (cmp : A -> A -> comparison) (x y : ext A) : comparison :=
  match x, y with
  | NegativeInfinity, NegativeInfinity => Eq
  | NegativeInfinity, _ => Lt
  | _, NegativeInfinity => Gt
  | Infinity, Infinity => Eq
  | Infinity, _ => Gt
  | _, Infinity => Lt
  | Finite a, Finite b => cmp a b
  end.

Definition compare_key (k1 k2 : Key) : comparison :=
  lex (key_epoch k1 ?= key_epoch k2)%N
    (lex (compare_tuple (key_release k1) (key_release k2))
       (lex (compare_ext compare_pre (key_pre k1) (key_pre k2))
          (lex (compare_ext N.compare (key_post k1) (key_post k2))
             (compare_ext N.compare (key_dev k1) (key_dev k2))))).

(** [Version.__le__] and [Version.__lt__]: comparison of the keys. *)
Definition version_le (v w : Version) : bool :=
  match compare_key (cmpkey v) (cmpkey w) with Gt => false | _ => true end.

Definition version_lt (v w : Version) : bool :=
  match compare_key (cmpkey v) (cmpkey w) with Lt => true | _ => false end.

End PackagingVersion.

Import PackagingVersion.

(** ** Exceptions *)

(** The exceptions the module tells apart, by class.  [RequestException]
    stands for [requests.RequestException] and its subclasses,
    [OtherException] for every other subclass of [Exception], and
    [OtherBaseException] for a [BaseException] outside [Exception]
    (such as [GeneratorExit]). *)
Inductive exn :=
| KeyboardInterrupt
| SystemExit (code : Z)
| RequestException (detail : string)
| OtherException (name : string)
| OtherBaseException (name : string).

Inductive exn_class :=
| BaseExceptionC | ExceptionC | KeyboardInterruptC | SystemExitC | RequestExceptionC.

Definition isinstance (e : exn) (c : exn_class) : bool :=
  match c, e with
  | BaseExceptionC, _ => true
  | ExceptionC, (RequestException _ | OtherException _) => true
  | KeyboardInterruptC, KeyboardInterrupt => true
  | SystemExitC, SystemExit _ => true
  | RequestExceptionC, RequestException _ => true
  | _, _ => false
  end.

Inductive Result (A : Type) :=
| Ret (a : A)
| Raise (e : exn).
Arguments Ret {A} a.
Arguments Raise {A} e.

(** ** Events *)

Definition handle := nat.
Definition category := string.

Inductive level := TRACE | DEBUG | NOTICE | HNOTICE | WARNING | ERROR | CRITICAL.

Inductive arg :=
| AStr (s : string)
| AOptStr (s : option string)
| AInt (z : Z)
| AVersion (v : Version)
| AExn (e : exn).

Inductive process_op := OpStart | OpJoin | OpKill | OpTerminate.

(** What the supervising process does to the outside world, in order. *)
Inductive event :=
| Log (logger : string) (lvl : level) (fmt : string) (args : list arg)
| Sleep (seconds : Z)
| AppVersion
| FFprobeUpdate
| BuildArrInstances
| SpawnChildProcesses (arr : category)
| ProcessFlags
| Proc (op : process_op) (p : handle).

Abbreviation Start p := (Proc OpStart p).
Abbreviation Join p := (Proc OpJoin p).
Abbreviation Kill p := (Proc OpKill p).
Abbreviation Terminate p := (Proc OpTerminate p).

(** ** The expiring set ([qBitrr.utils.ExpiringSet]) *)

(** Modelled from the spec: the class [ExpiringSet] of [qBitrr.utils] is not
    part of this module.  It is a mapping from a key to its expiry time
    (insertion time plus the fixed time-to-live); a key is present iff the
    current time is before its expiry; inserting a key again gives it a full
    time-to-live from the moment of the insertion. *)
Record ExpiringSet := mkExpiringSet {
  max_age_seconds : Z;
  container : gmap Z Z }.

Definition ExpiringSet_new (age : Z) : ExpiringSet :=
  {| max_age_seconds := age; container := ∅ |}.

Definition ExpiringSet_contains (now : Z) (k : Z) (es : ExpiringSet) : bool :=
  match container es !! k with
  | Some expiry => now <? expiry
  | None => false
  end.

Definition ExpiringSet_add (now : Z) (k : Z) (es : ExpiringSet) : ExpiringSet :=
  {| max_age_seconds := max_age_seconds es;
     container := <[k := now + max_age_seconds es]> (container es) |}.

(** ** State *)

(** The attributes of the [qBitManager] instance that the supervision logic
    reads or writes.  [cache], [name_cache], [client], [ffprobe_downloader]
    and the connection parameters are never read back by this module; the
    connection parameters are configuration and live in [Env]. *)
Record qBitManager := mkManager {
  current_qbit_version : Version;
  _validated_version : bool;
  expiring_bool : ExpiringSet;
  should_delay_torrent_scan : bool;
  child_processes : list handle;
  managed_objects : list category }.

(** The interpreter state: the one manager object (shared with the [Arr]
    objects, which hold a reference to it), the module-level list
    [CHILD_PROCESSES], and the events issued so far. *)
Record State := mkState {
  manager : qBitManager;
  CHILD_PROCESSES : list handle;
  trace : list event }.

Definition set_manager (f : qBitManager -> qBitManager) (s : State) : State :=
  {| manager := f (manager s); CHILD_PROCESSES := CHILD_PROCESSES s; trace := trace s |}.

Definition set_CHILD_PROCESSES (l : list handle) (s : State) : State :=
  {| manager := manager s; CHILD_PROCESSES := l; trace := trace s |}.

Definition add_event (e : event) (s : State) : State :=
  {| manager := manager s; CHILD_PROCESSES := CHILD_PROCESSES s; trace := trace s ++ [e] |}.

Definition set_current_qbit_version (v : Version) (m : qBitManager) : qBitManager :=
  {| current_qbit_version := v;
     _validated_version := _validated_version m;
     expiring_bool := expiring_bool m;
     should_delay_torrent_scan := should_delay_torrent_scan m;
     child_processes := child_processes m;
     managed_objects := managed_objects m |}.

Definition set_validated_version (b : bool) (m : qBitManager) : qBitManager :=
  {| current_qbit_version := current_qbit_version m;
     _validated_version := b;
     expiring_bool := expiring_bool m;
     should_delay_torrent_scan := should_delay_torrent_scan m;
     child_processes := child_processes m;
     managed_objects := managed_objects m |}.

Definition set_expiring_bool (es : ExpiringSet) (m : qBitManager) : qBitManager :=
  {| current_qbit_version := current_qbit_version m;
     _validated_version := _validated_version m;
     expiring_bool := es;
     should_delay_torrent_scan := should_delay_torrent_scan m;
     child_processes := child_processes m;
     managed_objects := managed_objects m |}.

Definition set_should_delay_torrent_scan (b : bool) (m : qBitManager) : qBitManager :=
  {| current_qbit_version := current_qbit_version m;
     _validated_version := _validated_version m;
     expiring_bool := expiring_bool m;
     should_delay_torrent_scan := b;
     child_processes := child_processes m;
     managed_objects := managed_objects m |}.

Definition set_child_processes (l : list handle) (m : qBitManager) : qBitManager :=
  {| current_qbit_version := current_qbit_version m;
     _validated_version := _validated_version m;
     expiring_bool := expiring_bool m;
     should_delay_torrent_scan := should_delay_torrent_scan m;
     child_processes := l;
     managed_objects := managed_objects m |}.

Definition set_managed_objects (l : list category) (m : qBitManager) : qBitManager :=
  {| current_qbit_version := current_qbit_version m;
     _validated_version := _validated_version m;
     expiring_bool := expiring_bool m;
     should_delay_torrent_scan := should_delay_torrent_scan m;
     child_processes := child_processes m;
     managed_objects := l |}.

(** ** The environment *)

(** The collaborators.  Each oracle is applied to the events issued before the
    call.  The [Arr] objects are built with a reference to the manager
    ([ArrManager(self)]), so [build_arr_instances] and
    [spawn_child_processes] also receive the manager's [child_processes] and
    give back its new value.  A process operation answers [None] when it
    returns and [Some e] when it raises [e]; it does not touch the manager.
    Logging, sleeping and reading the clock never raise, and the clock is a
    function of the events issued so far. *)
Record Env := mkEnv {
  QBit_Host : string;
  QBit_Port : Z;
  QBit_UserName : option string;
  QBit_Password : option string;
  patched_version : string;
  time_time : list event -> Z;
  client_app_version : list event -> Result string;
  version_parse : string -> Result Version;
  ffprobe_update : list event -> option exn;
  build_arr_instances :
    list event -> list handle -> Result (list category) * list handle;
  spawn_child_processes :
    list event -> category -> list handle -> Result (nat * list handle) * list handle;
  process_flags : list event -> Result bool;
  process_call : list event -> process_op -> handle -> option exn }.

(** ** The monad of statements *)

Definition M (A : Type) : Type := State -> Result A * State.

Global Instance M_ret : MRet M := fun A a s => (Ret a, s).

Global Instance M_bind : MBind M := fun A B k m s =>
  match m s with
  | (Ret a, s') => k a s'
  | (Raise e, s') => (Raise e, s')
  end.

Global Instance M_throw : MThrow exn M := fun A e s => (Raise e, s).

(** [try: body except ...]: [handlers e] is the body of the first clause that
    matches [e], if any. *)
Definition try_except {A} (body : M A) (handlers : exn -> option (M A)) : M A :=
  fun s =>
    match body s with
    | (Ret a, s') => (Ret a, s')
    | (Raise e, s') =>
        match handlers e with
        | Some h => h s'
        | None => (Raise e, s')
        end
    end.

Definition get_manager : M qBitManager := fun s => (Ret (manager s), s).

Definition modify_manager (f : qBitManager -> qBitManager) : M unit :=
  fun s => (Ret tt, set_manager f s).

Definition emit (e : event) : M unit := fun s => (Ret tt, add_event e s).

(** A call that yields a value or raises, decided on the events so far. *)
Definition call {A} (e : event) (oracle : list event -> Result A) : M A :=
  fun s => (oracle (trace s), add_event e s).

Definition log (logger : string) (lvl : level) (fmt : string) (args : list arg) : M unit :=
  emit (Log logger lvl fmt args).

(** [sys.exit(code)]. *)
Definition sys_exit {A} (code : Z) : M A := mthrow (SystemExit code).

(** [time.sleep(seconds)]. *)
Definition time_sleep (seconds : Z) : M unit := emit (Sleep seconds).

(** [for x in xs: body(x)]. *)
Fixpoint for_each {A} (xs : list A) (body : A -> M unit) : M unit :=
  match xs with
  | [] => mret tt
  | x :: rest => body x ;; for_each rest body
  end.

(** ** The program *)

Definition min_supported_version : Version := release_version [4; 3; 4]%N.
Definition max_supported_version : Version := release_version [4; 4]%N.

Definition manager_logger : string := "qBitrr.Manager".
Definition module_logger : string := "qBitrr".

Section Program.

Variable env : Env.

(** [time.time()], read by the expiring set. *)
Definition now : M Z := fun s => (Ret (time_time env (trace s)), s).

(** [self.client.app_version()]. *)
Definition app_version : M string := call AppVersion (client_app_version env).

(** [version_parser.parse(text)]. *)
Definition parse (text : string) : M Version := fun s => (version_parse env text, s).

(** [p.start()], [p.join()], [p.kill()], [p.terminate()]. *)
Definition process (op : process_op) (p : handle) : M unit :=
  call (Proc op p)
    (fun h => match process_call env h op p with None => Ret tt | Some e => Raise e end).

(** [qBitManager._version_validator]. *)
Definition _version_validator : M unit :=
  m ← get_manager;
  if version_le min_supported_version (current_qbit_version m)
     && version_le (current_qbit_version m) max_supported_version
  then
    if _validated_version m then
      log manager_logger HNOTICE "Current qBitTorrent version is supported: %s"
        [AVersion (current_qbit_version m)]
    else
      log manager_logger HNOTICE
        "Could not validate current qBitTorrent version, assuming: %s"
        [AVersion (current_qbit_version m)];;
      time_sleep 10
  else
    log manager_logger CRITICAL
      "You are currently running qBitTorrent version %s, Supported version range is %s to %s"
      [AVersion (current_qbit_version m);
       AVersion min_supported_version;
       AVersion max_supported_version];;
    sys_exit 1.

(** The body of the first [try] of [__init__]: fetch and parse the version. *)
Definition fetch_and_parse : M unit :=
  text ← app_version;
  v ← parse text;
  modify_manager (set_current_qbit_version v);;
  modify_manager (set_validated_version true).

(** The first [try] statement of [__init__]. *)
Definition establish_version : M unit :=
  try_except fetch_and_parse
    (fun e =>
       if isinstance e BaseExceptionC then
         Some (modify_manager (set_current_qbit_version min_supported_version);;
               log manager_logger ERROR
                 "Could not establish qBitTorrent version, you may experience errors, please report this error."
                 [];;
               modify_manager (set_validated_version false))
       else None).

(** [self.ffprobe_downloader.update()] under its [try]. *)
Definition update_ffprobe : M unit :=
  try_except
    (call FFprobeUpdate
       (fun h => match ffprobe_update env h with None => Ret tt | Some e => Raise e end))
    (fun e =>
       if isinstance e ExceptionC then
         Some (log manager_logger ERROR
                 "FFprobe manager error: %s while attempting to download/update FFprobe"
                 [AExn e])
       else None).

(** [self.arr_manager = ArrManager(self).build_arr_instances()]. *)
Definition build_arr_manager : M unit :=
  fun s =>
    let '(r, cps) := build_arr_instances env (trace s) (child_processes (manager s)) in
    let s' := add_event BuildArrInstances (set_manager (set_child_processes cps) s) in
    match r with
    | Ret arrs => (Ret tt, set_manager (set_managed_objects arrs) s')
    | Raise e => (Raise e, s')
    end.

(** The statements of [__init__] that follow the version gate. *)
Definition after_version_gate : M unit :=
  modify_manager (set_expiring_bool (ExpiringSet_new 10));;
  modify_manager (set_should_delay_torrent_scan false);;
  modify_manager (set_child_processes []);;
  update_ffprobe;;
  build_arr_manager.

Definition config_message : event :=
  Log manager_logger DEBUG
    "QBitTorrent Config: Host: %s Port: %s, Username: %s, Password: %s"
    [AStr (QBit_Host env); AInt (QBit_Port env);
     AOptStr (QBit_UserName env); AOptStr (QBit_Password env)].

(** [qBitManager.__init__].  The calls of [__init__] that stand outside its
    two [try] statements and talk to nobody ([CONFIG.get], [run_logs], the
    constructors of the client, of the expiring set and of the FFprobe
    downloader) are taken to return, and are left out. *)
Definition __init__ : M unit :=
  emit config_message;;
  establish_version;;
  _version_validator;;
  after_version_gate.

(** [qBitManager.is_alive].  The body of the [try] yields [Some b] when it
    executes [return b]; the handler yields [None] and control falls through
    to the statements after the [try]. *)
Definition is_alive : M bool :=
  returned ← try_except
    (m ← get_manager;
     t ← now;
     if ExpiringSet_contains t 1 (expiring_bool m) then mret (Some true)
     else
       app_version;;
       log manager_logger TRACE "Successfully connected to %s:%s"
         [AStr (QBit_Host env); AInt (QBit_Port env)];;
       t' ← now;
       modify_manager (fun m => set_expiring_bool (ExpiringSet_add t' 1 (expiring_bool m)) m);;
       mret (Some true))
    (fun e =>
       if isinstance e RequestExceptionC then
         Some (log manager_logger WARNING "Could not connect to %s:%s"
                 [AStr (QBit_Host env); AInt (QBit_Port env)];;
               mret None)
       else None);
  match returned with
  | Some b => mret b
  | None =>
      modify_manager (set_should_delay_torrent_scan true);;
      mret false
  end.

(** [arr.spawn_child_processes()]. *)
Definition spawn (arr : category) : M (nat * list handle) :=
  fun s =>
    let '(r, cps) :=
      spawn_child_processes env (trace s) arr (child_processes (manager s)) in
    (r, add_event (SpawnChildProcesses arr) (set_manager (set_child_processes cps) s)).

(** The loop of [get_child_processes]. *)
Fixpoint spawn_loop (arrs : list category) (count : nat) (procs : list handle)
  : M (list handle) :=
  match arrs with
  | [] => mret procs
  | arr :: rest =>
      '(numb, processes) ← spawn arr;
      spawn_loop rest (count + numb)%nat (procs ++ processes)
  end.

(** [qBitManager.get_child_processes]. *)
Definition get_child_processes : M (list handle) :=
  m ← get_manager;
  log manager_logger HNOTICE "Managing %s categories"
    [AInt (Z.of_nat (length (managed_objects m)))];;
  spawn_loop (managed_objects m) 0%nat [].

(** The body of the [try] of [qBitManager.run]. *)
Definition start_and_join : M unit :=
  m ← get_manager;
  log manager_logger NOTICE "Starting %s child processes"
    [AInt (Z.of_nat (length (child_processes m)))];;
  m1 ← get_manager;
  for_each (child_processes m1) (process OpStart);;
  m2 ← get_manager;
  for_each (child_processes m2) (process OpJoin).

(** [qBitManager.run]. *)
Definition qBitManager_run : M unit :=
  try_except start_and_join
    (fun e =>
       if isinstance e KeyboardInterruptC then
         Some (log manager_logger HNOTICE "Detected Ctrl+C - Terminating process" [];;
               sys_exit 0)
       else if isinstance e BaseExceptionC then
         Some (log manager_logger HNOTICE "Detected Ctrl+C - Terminating process: %r"
                 [AExn e];;
               sys_exit 1)
       else None).

(** The body of the [try] of the module-level [run]. *)
Definition spawn_and_run : M unit :=
  procs ← get_child_processes;
  (fun s => (Ret tt, set_CHILD_PROCESSES procs s));;
  qBitManager_run.

(** The [try] statement of the module-level [run]. *)
Definition supervise : M unit :=
  try_except spawn_and_run
    (fun e =>
       if isinstance e KeyboardInterruptC then
         Some (log module_logger HNOTICE "Detected Ctrl+C - Terminating process" [];;
               sys_exit 0)
       else if isinstance e ExceptionC then
         Some (log module_logger NOTICE
                 "Attempting to terminate child processes, please wait a moment." [];;
               m ← get_manager;
               for_each (child_processes m) (process OpKill))
       else None).

Definition start_message : event :=
  Log module_logger NOTICE "Starting qBitrr: Version: %s." [AStr (patched_version env)].

(** The module-level [run]. *)
Definition run : M unit :=
  early_exit ← call ProcessFlags (process_flags env);
  (if early_exit : bool then sys_exit 0 else mret tt : M unit);;
  emit start_message;;
  __init__;;
  supervise.

(** [cleanup], the function registered with [atexit]. *)
Definition cleanup : M unit :=
  fun s =>
    for_each (CHILD_PROCESSES s) (fun p => process OpKill p;; process OpTerminate p) s.

(** How the interpreter ends. *)
Inductive outcome :=
| Completed
| Exited (status : Z)
| Uncaught (e : exn).

Definition outcome_of (r : Result unit) : outcome :=
  match r with
  | Ret _ => Completed
  | Raise (SystemExit code) => Exited code
  | Raise e => Uncaught e
  end.

(** The script: [run()], and then the [atexit] hook on whatever [run] left
    behind.  An exception raised by the hook is reported and does not change
    how the process ends. *)
Definition main (s : State) : outcome * State :=
  let '(r, s1) := run s in
  (outcome_of r, (cleanup s1).2).

End Program.

(** ** States named in the properties *)

(** What the handler of the first [try] of [__init__] leaves behind. *)
Definition fallback (s : State) : State :=
  set_manager (set_validated_version false)
    (add_event
       (Log manager_logger ERROR
          "Could not establish qBitTorrent version, you may experience errors, please report this error."
          [])
       (set_manager (set_current_qbit_version min_supported_version) s)).

(** [run] up to the construction of the manager, when the command line does
    not ask for an early exit. *)
Definition at_construction (env : Env) (s : State) : State :=
  add_event (config_message env) (add_event (start_message env) (add_event ProcessFlags s)).

Definition add_events (es : list event) (s : State) : State :=
  {| manager := manager s; CHILD_PROCESSES := CHILD_PROCESSES s; trace := trace s ++ es |}.

(** The message of [qBitManager.run] when its [try] raises [e]. *)
Definition termination_message (e : exn) : event :=
  if isinstance e KeyboardInterruptC then
    Log manager_logger HNOTICE "Detected Ctrl+C - Terminating process" []
  else
    Log manager_logger HNOTICE "Detected Ctrl+C - Terminating process: %r" [AExn e].

Definition termination_status (e : exn) : Z :=
  if isinstance e KeyboardInterruptC then 0 else 1.

(** The events of [qBitManager.run] when every [start] and [join] returns. *)
Definition start_join_events (cps : list handle) : list event :=
  Log manager_logger NOTICE "Starting %s child processes" [AInt (Z.of_nat (length cps))]
  :: map (Proc OpStart) cps ++ map (Proc OpJoin) cps.

(** The events of [cleanup] when every [kill] and [terminate] returns. *)
Definition cleanup_events (registry : list handle) : list event :=
  flat_map (fun p => [Kill p; Terminate p]) registry.

(** Has operation [op] been issued on handle [p]? *)
Definition issued (op : process_op) (p : handle) (t : list event) : bool :=
  existsb
    (fun e =>
       match e, op with
       | Proc OpStart q, OpStart | Proc OpJoin q, OpJoin
       | Proc OpKill q, OpKill | Proc OpTerminate q, OpTerminate => Nat.eqb p q
       | _, _ => false
       end)
    t.

(** Every category adds to the manager's [child_processes] exactly the
    handles it returns. *)
Definition registers (env : Env) : Prop :=
  forall h arr cps n ps cps',
    spawn_child_processes env h arr cps = (Ret (n, ps), cps') -> cps' = cps ++ ps.

(** [run] has constructed the manager and stands before its [try]. *)
Definition constructed (env : Env) (s0 s : State) : Prop :=
  process_flags env (trace s0) = Ret false /\
  __init__ env (add_event (start_message env) (add_event ProcessFlags s0)) = (Ret tt, s).

(** ** Sample collaborators *)

(** The state of the interpreter once the module is imported: an empty
    registry, no event yet, and a manager still to be constructed. *)
Definition fresh : State :=
  {| manager :=
       {| current_qbit_version := release_version [];
          _validated_version := false;
          expiring_bool := ExpiringSet_new 10;
          should_delay_torrent_scan := false;
          child_processes := [];
          managed_objects := [] |};
     CHILD_PROCESSES := [];
     trace := [] |}.

(** One category, "radarr", with one worker, handle [1].  The reply of the
    client, the version it parses to, the behaviour of the category and the
    behaviour of the worker vary. *)
Definition sample_env
    (reply : Result string) (parsed : Version)
    (spawn_oracle :
       list event -> category -> list handle -> Result (nat * list handle) * list handle)
    (calls : list event -> process_op -> handle -> option exn) : Env :=
  {| QBit_Host := "localhost";
     QBit_Port := 8105;
     QBit_UserName := None;
     QBit_Password := None;
     patched_version := "2.1.0";
     time_time := fun h => Z.of_nat (length h);
     client_app_version := fun _ => reply;
     version_parse := fun _ => Ret parsed;
     ffprobe_update := fun _ => None;
     build_arr_instances := fun _ cps => (Ret ["radarr"], cps);
     spawn_child_processes := spawn_oracle;
     process_flags := fun _ => Ret false;
     process_call := calls |}.

(** The category appends its worker to the manager's [child_processes] and
    returns it. *)
Definition registering_spawn
    (h : list event) (arr : category) (cps : list handle)
  : Result (nat * list handle) * list handle :=
  (Ret (1%nat, [1%nat]), cps ++ [1%nat]).

(** The category only returns its worker. *)
Definition aggregating_spawn
    (h : list event) (arr : category) (cps : list handle)
  : Result (nat * list handle) * list handle :=
  (Ret (1%nat, [1%nat]), cps).

(** The category registers its worker and then fails. *)
Definition failing_spawn
    (h : list event) (arr : category) (cps : list handle)
  : Result (nat * list handle) * list handle :=
  (Raise (OtherException "OSError"), cps ++ [1%nat]).

Definition healthy (h : list event) (op : process_op) (p : handle) : option exn := None.

(** [join] is interrupted by Ctrl+C. *)
Definition interrupted (h : list event) (op : process_op) (p : handle) : option exn :=
  match op with OpJoin => Some KeyboardInterrupt | _ => None end.

(** [join] fails with an ordinary exception. *)
Definition broken_join (h : list event) (op : process_op) (p : handle) : option exn :=
  match op with OpJoin => Some (OtherException "RuntimeError") | _ => None end.

Definition v4_3_5 : Version := release_version [4; 3; 5]%N.
Definition v4_5_0 : Version := release_version [4; 5; 0]%N.

Definition supported_env : Env :=
  sample_env (Ret "v4.3.5") v4_3_5 registering_spawn healthy.

Definition unsupported_env : Env :=
  sample_env (Ret "v4.5.0") v4_5_0 registering_spawn healthy.

Definition unreachable_env : Env :=
  sample_env (Raise (RequestException "Connection refused")) v4_3_5 registering_spawn healthy.

Definition crashing_client_env : Env :=
  sample_env (Raise (OtherException "AttributeError")) v4_3_5 registering_spawn healthy.

Definition aggregating_env : Env :=
  sample_env (Ret "v4.3.5") v4_3_5 aggregating_spawn healthy.

Definition failing_spawn_env : Env :=
  sample_env (Ret "v4.3.5") v4_3_5 failing_spawn healthy.

Definition interrupted_env : Env :=
  sample_env (Ret "v4.3.5") v4_3_5 registering_spawn interrupted.

Definition broken_join_env : Env :=
  sample_env (Ret "v4.3.5") v4_3_5 registering_spawn broken_join.

(** A manager holding [v], validated or not. *)
Definition holding (v : Version) (validated : bool) : State :=
  set_manager (set_validated_version validated)
    (set_manager (set_current_qbit_version v) fresh).

(** The sentinel was inserted at time 0 and lives for 10 seconds. *)
Definition recently_confirmed : State :=
  set_manager (set_expiring_bool (ExpiringSet_add 0 1 (ExpiringSet_new 10))) fresh.


(** The state in which [run] enters its [try], and the state in which
    [get_child_processes] leaves it, from a fresh interpreter. *)
Definition built (env : Env) : State :=
  (__init__ env (add_event (start_message env) (add_event ProcessFlags fresh))).2.

Definition spawned (env : Env) : State := (get_child_processes env (built env)).2.

(** The command line asks for an early exit. *)
Definition early_exit_env : Env :=
  {| QBit_Host := QBit_Host supported_env;
     QBit_Port := QBit_Port supported_env;
     QBit_UserName := QBit_UserName supported_env;
     QBit_Password := QBit_Password supported_env;
     patched_version := patched_version supported_env;
     time_time := time_time supported_env;
     client_app_version := client_app_version supported_env;
     version_parse := version_parse supported_env;
     ffprobe_update := ffprobe_update supported_env;
     build_arr_instances := build_arr_instances supported_env;
     spawn_child_processes := spawn_child_processes supported_env;
     process_flags := fun _ => Ret true;
     process_call := process_call supported_env |}.

(** The category registers its worker and is then interrupted by Ctrl+C. *)
Definition interrupted_spawn
    (h : list event) (arr : category) (cps : list handle)
  : Result (nat * list handle) * list handle :=
  (Raise KeyboardInterrupt, cps ++ [1%nat]).

Definition interrupted_spawn_env : Env :=
  sample_env (Ret "v4.3.5") v4_3_5 interrupted_spawn healthy.





(** The client answers, but rejects the credentials: an error of the
    application, which [qbittorrentapi] derives from
    [requests.RequestException]. *)
Definition login_failed_env : Env :=
  sample_env (Raise (RequestException "qbittorrentapi.LoginFailed")) v4_3_5
    registering_spawn healthy.









(** * Properties *)

(** ** The order on versions *)

Module VersionOrder.

Lemma lex_opp (a b : comparison) : lex (CompOpp a) (CompOpp b) = CompOpp (lex a b).
Proof. by destruct a. Qed.

Lemma compare_tuple_antisym (xs ys : list N) :
  compare_tuple ys xs = CompOpp (compare_tuple xs ys).
Proof.
  revert ys; induction xs as [|x xs IH]; intros [|y ys]; simpl; try done.
  by rewrite (N.compare_antisym x y), IH, lex_opp.
Qed.

Lemma compare_pre_antisym (p q : pre_letter * N) :
  compare_pre q p = CompOpp (compare_pre p q).
Proof.
  unfold compare_pre.
  by rewrite (N.compare_antisym (letter_rank p.1)), (N.compare_antisym p.2), lex_opp.
Qed.

Lemma compare_ext_antisym {A} (cmp : A -> A -> comparison) (x y : ext A) :
  (forall a b, cmp b a = CompOpp (cmp a b)) ->
  compare_ext cmp y x = CompOpp (compare_ext cmp x y).
Proof. intros Hcmp; destruct x, y; simpl; auto. Qed.

Lemma compare_key_antisym (k1 k2 : Key) :
  compare_key k2 k1 = CompOpp (compare_key k1 k2).
Proof.
  unfold compare_key.
  rewrite (N.compare_antisym (key_epoch k1)), (compare_tuple_antisym (key_release k1)).
  rewrite (compare_ext_antisym compare_pre (key_pre k1)) by apply compare_pre_antisym.
  rewrite (compare_ext_antisym N.compare (key_post k1))
    by (intros; apply N.compare_antisym).
  rewrite (compare_ext_antisym N.compare (key_dev k1))
    by (intros; apply N.compare_antisym).
  by rewrite !lex_opp.
Qed.

(** [v < w] excludes [w <= v], and the other way round: the order is total. *)
Lemma version_lt_not_le (v w : Version) : version_lt v w = negb (version_le w v).
Proof.
  unfold version_lt, version_le.
  rewrite (compare_key_antisym (cmpkey v) (cmpkey w)).
  by destruct (compare_key (cmpkey v) (cmpkey w)).
Qed.

Lemma version_le_refl (v : Version) : version_le v v = true.
Proof.
  unfold version_le.
  pose proof (compare_key_antisym (cmpkey v) (cmpkey v)) as H.
  by destruct (compare_key (cmpkey v) (cmpkey v)).
Qed.

(** The supported range is not empty. *)
Lemma min_le_max : version_le min_supported_version max_supported_version = true.
Proof. reflexivity. Qed.

(** Outside the range, that is below the minimum or above the maximum,
    the test of the gate fails. *)
Lemma outside_range (v : Version) :
  version_lt v min_supported_version || version_lt max_supported_version v = true ->
  version_le min_supported_version v && version_le v max_supported_version = false.
Proof.
  rewrite !version_lt_not_le.
  destruct (version_le min_supported_version v), (version_le v max_supported_version);
    simpl; congruence.
Qed.

End VersionOrder.

Import VersionOrder.

(** ** Running statements *)

Ltac step :=
  unfold mbind, M_bind, mret, M_ret, mthrow, M_throw, try_except, get_manager,
    modify_manager, emit, log, call, sys_exit, time_sleep, now, app_version, parse,
    process in *;
  simpl in *.

(** ** The version gate *)

(** The three branches of [_version_validator], as equations. *)
Lemma version_validator_supported s :
  version_le min_supported_version (current_qbit_version (manager s))
  && version_le (current_qbit_version (manager s)) max_supported_version = true ->
  _validated_version (manager s) = true ->
  _version_validator s =
    (Ret tt,
     add_event (Log manager_logger HNOTICE "Current qBitTorrent version is supported: %s"
                  [AVersion (current_qbit_version (manager s))]) s).
Proof. intros Hr Hv. unfold _version_validator. step. by rewrite Hr, Hv. Qed.

Lemma version_validator_assumed s :
  version_le min_supported_version (current_qbit_version (manager s))
  && version_le (current_qbit_version (manager s)) max_supported_version = true ->
  _validated_version (manager s) = false ->
  _version_validator s =
    (Ret tt,
     add_event (Sleep 10)
       (add_event (Log manager_logger HNOTICE
                     "Could not validate current qBitTorrent version, assuming: %s"
                     [AVersion (current_qbit_version (manager s))]) s)).
Proof. intros Hr Hv. unfold _version_validator. step. by rewrite Hr, Hv. Qed.

Lemma version_validator_unsupported s :
  version_le min_supported_version (current_qbit_version (manager s))
  && version_le (current_qbit_version (manager s)) max_supported_version = false ->
  _version_validator s =
    (Raise (SystemExit 1),
     add_event (Log manager_logger CRITICAL
                  "You are currently running qBitTorrent version %s, Supported version range is %s to %s"
                  [AVersion (current_qbit_version (manager s));
                   AVersion min_supported_version;
                   AVersion max_supported_version]) s).
Proof. intros Hr. unfold _version_validator. step. by rewrite Hr. Qed.

(** ** Construction *)

(** The body of the [try] touches the manager only once nothing can fail any more. *)
Lemma fetch_and_parse_raise env s e s1 :
  fetch_and_parse env s = (Raise e, s1) -> s1 = add_event AppVersion s.
Proof.
  unfold fetch_and_parse. step.
  destruct (client_app_version env (trace s)) as [text|e1]; [|congruence].
  destruct (version_parse env text) as [v|e2]; congruence.
Qed.

Lemma fetch_and_parse_return env s s1 :
  fetch_and_parse env s = (Ret tt, s1) ->
  _validated_version (manager s1) = true /\
  exists text, client_app_version env (trace s) = Ret text /\
               version_parse env text = Ret (current_qbit_version (manager s1)).
Proof.
  unfold fetch_and_parse. step.
  destruct (client_app_version env (trace s)) as [text|e1]; [|congruence].
  destruct (version_parse env text) as [v|e2] eqn:Hp; [|congruence].
  intros [= <-]. simpl. eauto.
Qed.

Lemma establish_version_failure env s e s1 :
  fetch_and_parse env s = (Raise e, s1) ->
  establish_version env s = (Ret tt, fallback s1).
Proof.
  intros H. unfold establish_version, try_except. rewrite H.
  by destruct e.
Qed.

Lemma establish_version_success env s s1 :
  fetch_and_parse env s = (Ret tt, s1) ->
  establish_version env s = (Ret tt, s1).
Proof. intros H. unfold establish_version, try_except. by rewrite H. Qed.

(** The statements after the gate leave the version and its flag alone. *)
Lemma update_ffprobe_manager env s r s1 :
  update_ffprobe env s = (r, s1) -> manager s1 = manager s.
Proof.
  unfold update_ffprobe. step.
  destruct (ffprobe_update env (trace s)) as [e|]; [destruct e|]; by intros [= _ <-].
Qed.

Lemma build_arr_manager_version env s r s1 :
  build_arr_manager env s = (r, s1) ->
  current_qbit_version (manager s1) = current_qbit_version (manager s) /\
  _validated_version (manager s1) = _validated_version (manager s).
Proof.
  unfold build_arr_manager.
  destruct (build_arr_instances env (trace s) (child_processes (manager s))) as [[arrs|e] cps];
    by intros [= _ <-].
Qed.

Lemma after_version_gate_version env s r s1 :
  after_version_gate env s = (r, s1) ->
  current_qbit_version (manager s1) = current_qbit_version (manager s) /\
  _validated_version (manager s1) = _validated_version (manager s).
Proof.
  unfold after_version_gate. step.
  match goal with |- context [update_ffprobe env ?s0] =>
    destruct (update_ffprobe env s0) as [[[]|e] s2] eqn:Hf end.
  - intros Hb. apply build_arr_manager_version in Hb.
    apply update_ffprobe_manager in Hf. by rewrite Hf in Hb.
  - intros [= _ <-]. apply update_ffprobe_manager in Hf. by rewrite Hf.
Qed.

Lemma run_constructs env s :
  process_flags env (trace s) = Ret false ->
  run env s =
    match establish_version env (at_construction env s) with
    | (Ret _, s1) =>
        match _version_validator s1 with
        | (Ret _, s2) =>
            match after_version_gate env s2 with
            | (Ret _, s3) => supervise env s3
            | (Raise e, s3) => (Raise e, s3)
            end
        | (Raise e, s2) => (Raise e, s2)
        end
    | (Raise e, s1) => (Raise e, s1)
    end.
Proof.
  intros Hflags. unfold run, __init__, at_construction. step. rewrite Hflags. simpl.
  destruct (establish_version env _) as [[[]|e] s1]; [|done].
  destruct (_version_validator s1) as [[[]|e] s2]; [|done].
  by destruct (after_version_gate env s2) as [[[]|e] s3].
Qed.

(** ** The claims on the version gate and the construction *)

(** C2: for every observed version [v]: inside the supported range, endpoints
    included, [_version_validator] returns and changes nothing of the manager;
    below the minimum or above the maximum it logs one critical message whose
    arguments are [v], the minimum and the maximum, and raises [SystemExit(1)];
    and when such a [v] is what the client reports at start-up, nothing
    catches that exit: the process ends with status 1. *)
Theorem version_gate_inclusive_range (v : Version) :
  (forall s,
     current_qbit_version (manager s) = v ->
     version_le min_supported_version v && version_le v max_supported_version = true ->
     exists s', _version_validator s = (Ret tt, s') /\ manager s' = manager s) /\
  (forall s,
     current_qbit_version (manager s) = v ->
     version_lt v min_supported_version || version_lt max_supported_version v = true ->
     _version_validator s =
       (Raise (SystemExit 1),
        add_event
          (Log manager_logger CRITICAL
             "You are currently running qBitTorrent version %s, Supported version range is %s to %s"
             [AVersion v; AVersion min_supported_version; AVersion max_supported_version])
          s)) /\
  (forall env s text,
     version_lt v min_supported_version || version_lt max_supported_version v = true ->
     process_flags env (trace s) = Ret false ->
     client_app_version env (trace (at_construction env s)) = Ret text ->
     version_parse env text = Ret v ->
     (main env s).1 = Exited 1).
Proof.
  split; [|split].
  - intros s <- Hr.
    destruct (_validated_version (manager s)) eqn:Hv.
    + rewrite version_validator_supported by done. eauto.
    + rewrite version_validator_assumed by done. eauto.
  - intros s <- Hout. apply version_validator_unsupported, outside_range, Hout.
  - intros env s text Hout Hflags Hfetch Hparse.
    unfold main. rewrite run_constructs by done.
    assert (fetch_and_parse env (at_construction env s) =
              (Ret tt, set_manager (set_validated_version true)
                         (set_manager (set_current_qbit_version v)
                            (add_event AppVersion (at_construction env s))))) as Hfp.
    { unfold fetch_and_parse. step. rewrite Hfetch. simpl. by rewrite Hparse. }
    rewrite (establish_version_success _ _ _ Hfp).
    rewrite version_validator_unsupported; [done|].
    by apply outside_range.
Qed.

(** C6: for every observed version inside the supported range whose validated
    flag is false, [_version_validator] logs the message that the version
    could not be validated and is assumed, sleeps 10 seconds, and returns:
    no exit, and nothing else is done. *)
Theorem unvalidated_version_grace_delay (s : State) :
  version_le min_supported_version (current_qbit_version (manager s))
  && version_le (current_qbit_version (manager s)) max_supported_version = true ->
  _validated_version (manager s) = false ->
  _version_validator s =
    (Ret tt,
     add_event (Sleep 10)
       (add_event
          (Log manager_logger HNOTICE
             "Could not validate current qBitTorrent version, assuming: %s"
             [AVersion (current_qbit_version (manager s))])
          s)).
Proof. apply version_validator_assumed. Qed.

(** C5: whatever exception the fetch-and-parse step of [__init__] raises, the
    handler stores the minimum supported version as the observed one, clears
    the validated flag and logs an error; [__init__] then runs the version
    gate, which lets the fallback through (message, 10 second sleep), and
    carries on with the statements after the gate. *)
Theorem fetch_failure_falls_back env s e s1 :
  fetch_and_parse env (add_event (config_message env) s) = (Raise e, s1) ->
  establish_version env (add_event (config_message env) s) = (Ret tt, fallback s1) /\
  current_qbit_version (manager (fallback s1)) = min_supported_version /\
  _validated_version (manager (fallback s1)) = false /\
  trace (fallback s1) =
    trace s ++
    [config_message env; AppVersion;
     Log manager_logger ERROR
       "Could not establish qBitTorrent version, you may experience errors, please report this error."
       []] /\
  __init__ env s =
    after_version_gate env
      (add_event (Sleep 10)
         (add_event
            (Log manager_logger HNOTICE
               "Could not validate current qBitTorrent version, assuming: %s"
               [AVersion min_supported_version])
            (fallback s1))).
Proof.
  intros Hfail.
  pose proof (establish_version_failure _ _ _ _ Hfail) as Hest.
  apply fetch_and_parse_raise in Hfail as ->.
  repeat split; [done| |].
  - simpl. by rewrite <- !app_assoc.
  - unfold __init__. step. rewrite Hest.
    by rewrite version_validator_assumed.
Qed.

(** C10: whenever [__init__] returns, the stored version lies in the supported
    range, endpoints included; it is either the version the client reported,
    with the validated flag set, or the minimum supported version, with the
    flag cleared. *)
Theorem constructed_version_in_range env s s' :
  __init__ env s = (Ret tt, s') ->
  version_le min_supported_version (current_qbit_version (manager s'))
  && version_le (current_qbit_version (manager s')) max_supported_version = true /\
  ((_validated_version (manager s') = true /\
    exists text,
      client_app_version env (trace s ++ [config_message env]) = Ret text /\
      version_parse env text = Ret (current_qbit_version (manager s'))) \/
   (_validated_version (manager s') = false /\
    current_qbit_version (manager s') = min_supported_version)).
Proof.
  unfold __init__. step.
  destruct (fetch_and_parse env (add_event (config_message env) s)) as [[[]|e] s1] eqn:Hfp.
  - rewrite (establish_version_success _ _ _ Hfp).
    destruct (fetch_and_parse_return _ _ _ Hfp) as (Hv & text & Hfetch & Hparse).
    destruct (version_le min_supported_version (current_qbit_version (manager s1))
              && version_le (current_qbit_version (manager s1)) max_supported_version)
      eqn:Hr.
    + rewrite version_validator_supported by done.
      intros Hrest. apply after_version_gate_version in Hrest as [Hc Hf].
      simpl in Hc, Hf. rewrite Hc, Hf. split; [done|]. left. eauto.
    + by rewrite version_validator_unsupported.
  - rewrite (establish_version_failure _ _ _ _ Hfp).
    rewrite version_validator_assumed by done.
    intros Hrest. apply after_version_gate_version in Hrest as [Hc Hf].
    simpl in Hc, Hf. rewrite Hc, Hf. split; [done|]. by right.
Qed.

(** ** The liveness probe *)

(** The sentinel is found: [return True] before anything else happens. *)
Lemma is_alive_cached env s :
  ExpiringSet_contains (time_time env (trace s)) 1 (expiring_bool (manager s)) = true ->
  is_alive env s = (Ret true, s).
Proof. intros Hc. unfold is_alive. step. by rewrite Hc. Qed.

(** The sentinel is not found: the outcome of the version call decides. *)
Lemma is_alive_probe env s :
  ExpiringSet_contains (time_time env (trace s)) 1 (expiring_bool (manager s)) = false ->
  is_alive env s =
    match client_app_version env (trace s) with
    | Ret _ =>
        let s1 :=
          add_event
            (Log manager_logger TRACE "Successfully connected to %s:%s"
               [AStr (QBit_Host env); AInt (QBit_Port env)])
            (add_event AppVersion s) in
        (Ret true,
         set_manager
           (fun m =>
              set_expiring_bool
                (ExpiringSet_add (time_time env (trace s1)) 1 (expiring_bool m)) m)
           s1)
    | Raise e =>
        if isinstance e RequestExceptionC then
          (Ret false,
           set_manager (set_should_delay_torrent_scan true)
             (add_event
                (Log manager_logger WARNING "Could not connect to %s:%s"
                   [AStr (QBit_Host env); AInt (QBit_Port env)])
                (add_event AppVersion s)))
        else (Raise e, add_event AppVersion s)
    end.
Proof.
  intros Hc. unfold is_alive. step. rewrite Hc.
  destruct (client_app_version env (trace s)) as [text|e]; [done|].
  by destruct e.
Qed.

Lemma ExpiringSet_add_lookup (t k : Z) (es : ExpiringSet) :
  container (ExpiringSet_add t k es) !! k = Some (t + max_age_seconds es).
Proof. unfold ExpiringSet_add. simpl. apply lookup_insert_eq. Qed.

Lemma ExpiringSet_add_contains (t t' k : Z) (es : ExpiringSet) :
  ExpiringSet_contains t' k (ExpiringSet_add t k es) = (t' <? t + max_age_seconds es).
Proof. unfold ExpiringSet_contains. by rewrite ExpiringSet_add_lookup. Qed.

(** C3, amended: when the sentinel is absent, so that the version call is
    made, and the call raises [e]: if [e] is of class
    [requests.RequestException], be it a failure of the network or an error
    of the application derived from that class, [is_alive] logs a warning,
    sets [should_delay_torrent_scan] and returns [False]; if [e] is outside
    that class, [is_alive] raises [e] itself, and has changed nothing of the
    manager. *)
Theorem is_alive_network_failure env s e :
  ExpiringSet_contains (time_time env (trace s)) 1 (expiring_bool (manager s)) = false ->
  client_app_version env (trace s) = Raise e ->
  (isinstance e RequestExceptionC = true ->
   exists s',
     is_alive env s = (Ret false, s') /\
     should_delay_torrent_scan (manager s') = true /\
     trace s' =
       trace s ++
       [AppVersion;
        Log manager_logger WARNING "Could not connect to %s:%s"
          [AStr (QBit_Host env); AInt (QBit_Port env)]]) /\
  (isinstance e RequestExceptionC = false ->
   is_alive env s = (Raise e, add_event AppVersion s)).
Proof.
  intros Hc Hcall. rewrite is_alive_probe by done. rewrite Hcall.
  split; intros ->; [|done].
  eexists; split; [done|]. split; [done|]. simpl. by rewrite <- app_assoc.
Qed.

(** C4: when the sentinel [1] is present in the expiring set, [is_alive]
    returns [True] and the state is untouched: no version call, no event at
    all.  When it is absent and the version call returns, [is_alive] returns
    [True] after issuing that one call, and has inserted the sentinel with a
    full time-to-live counted from the time of the insertion. *)
Theorem is_alive_sentinel env s :
  (ExpiringSet_contains (time_time env (trace s)) 1 (expiring_bool (manager s)) = true ->
   is_alive env s = (Ret true, s)) /\
  (forall text,
     ExpiringSet_contains (time_time env (trace s)) 1 (expiring_bool (manager s)) = false ->
     client_app_version env (trace s) = Ret text ->
     exists s',
       is_alive env s = (Ret true, s') /\
       trace s' =
         trace s ++
         [AppVersion;
          Log manager_logger TRACE "Successfully connected to %s:%s"
            [AStr (QBit_Host env); AInt (QBit_Port env)]] /\
       container (expiring_bool (manager s')) !! 1 =
         Some (time_time env (trace s') + max_age_seconds (expiring_bool (manager s))) /\
       forall t,
         ExpiringSet_contains t 1 (expiring_bool (manager s')) =
           (t <? time_time env (trace s') + max_age_seconds (expiring_bool (manager s)))).
Proof.
  split; [apply is_alive_cached|].
  intros text Hc Hcall. rewrite is_alive_probe by done. rewrite Hcall.
  eexists; split; [done|]. simpl.
  split; [by rewrite <- app_assoc|].
  split; [apply ExpiringSet_add_lookup|].
  intros t. apply ExpiringSet_add_contains.
Qed.

(** ** Loops over worker handles *)

Lemma add_events_nil s : add_events [] s = s.
Proof. destruct s. unfold add_events. simpl. by rewrite app_nil_r. Qed.

Lemma add_events_cons e es s : add_events (e :: es) s = add_events es (add_event e s).
Proof. unfold add_events, add_event. simpl. by rewrite <- app_assoc. Qed.

Lemma add_events_app es1 es2 s :
  add_events (es1 ++ es2) s = add_events es2 (add_events es1 s).
Proof. unfold add_events. simpl. by rewrite app_assoc. Qed.

(** A loop of one operation that comes to its end has issued the operation
    on every handle, in list order. *)
Lemma for_each_process_return env op ps s s' :
  for_each ps (process env op) s = (Ret tt, s') ->
  s' = add_events (map (Proc op) ps) s.
Proof.
  revert s; induction ps as [|p ps IH]; intros s; simpl.
  - step. intros [= <-]. by rewrite add_events_nil.
  - step. destruct (process_call env (trace s) op p); [done|].
    intros H. rewrite add_events_cons. by apply IH.
Qed.

(** When no call of the loop raises, the loop comes to its end. *)
Lemma for_each_process_total env op ps s :
  (forall h p, p ∈ ps -> process_call env h op p = None) ->
  for_each ps (process env op) s = (Ret tt, add_events (map (Proc op) ps) s).
Proof.
  revert s; induction ps as [|p ps IH]; intros s Hok; simpl.
  - step. by rewrite add_events_nil.
  - step. rewrite Hok by left. rewrite add_events_cons.
    apply IH. intros h q Hq. apply Hok. by right.
Qed.

(** A loop leaves the manager and the registry as they are, whatever happens. *)
Lemma for_each_process_state env op ps s r s' :
  for_each ps (process env op) s = (r, s') ->
  manager s' = manager s /\ CHILD_PROCESSES s' = CHILD_PROCESSES s.
Proof.
  revert s; induction ps as [|p ps IH]; intros s; simpl.
  - step. by intros [= _ <-].
  - step. destruct (process_call env (trace s) op p).
    + by intros [= _ <-].
    + intros H. by apply IH in H.
Qed.

(** ** [qBitManager.run] *)

Lemma start_and_join_return env s s' :
  start_and_join env s = (Ret tt, s') ->
  s' = add_events (start_join_events (child_processes (manager s))) s.
Proof.
  unfold start_and_join. step.
  match goal with |- context [for_each ?ps ?f ?s0] =>
    destruct (for_each ps f s0) as [[[]|e] s1] eqn:Hstart end; [|done].
  apply for_each_process_return in Hstart as ->.
  simpl. intros Hjoin.
  apply for_each_process_return in Hjoin as ->.
  unfold start_join_events. by rewrite add_events_cons, add_events_app.
Qed.

(** The handlers of [qBitManager.run] turn every exception into an exit. *)
Lemma qBitManager_run_failure env s e s1 :
  start_and_join env s = (Raise e, s1) ->
  qBitManager_run env s =
    (Raise (SystemExit (termination_status e)), add_event (termination_message e) s1).
Proof.
  intros H. unfold qBitManager_run, try_except. rewrite H.
  by destruct e.
Qed.

Lemma qBitManager_run_return env s s' :
  qBitManager_run env s = (Ret tt, s') -> start_and_join env s = (Ret tt, s').
Proof.
  destruct (start_and_join env s) as [[[]|e] s1] eqn:H.
  - unfold qBitManager_run, try_except. by rewrite H.
  - by rewrite (qBitManager_run_failure _ _ _ _ H).
Qed.

Lemma qBitManager_run_raise env s e s' :
  qBitManager_run env s = (Raise e, s') -> e = SystemExit 0 \/ e = SystemExit 1.
Proof.
  destruct (start_and_join env s) as [[[]|e1] s1] eqn:H.
  - unfold qBitManager_run, try_except. by rewrite H.
  - rewrite (qBitManager_run_failure _ _ _ _ H). intros [= <- _].
    unfold termination_status. destruct (isinstance e1 KeyboardInterruptC); auto.
Qed.

(** ** [get_child_processes] *)

Lemma spawn_loop_registry env arrs count procs s r s1 :
  spawn_loop env arrs count procs s = (r, s1) ->
  CHILD_PROCESSES s1 = CHILD_PROCESSES s.
Proof.
  revert count procs s; induction arrs as [|arr arrs IH]; intros count procs s; simpl.
  - step. by intros [= _ <-].
  - step. unfold spawn.
    destruct (spawn_child_processes env (trace s) arr (child_processes (manager s)))
      as [[[numb processes]|e] cps].
    + intros H. by apply IH in H.
    + by intros [= _ <-].
Qed.

Lemma get_child_processes_registry env s r s1 :
  get_child_processes env s = (r, s1) -> CHILD_PROCESSES s1 = CHILD_PROCESSES s.
Proof. unfold get_child_processes. step. intros H. by apply spawn_loop_registry in H. Qed.

(** When the categories register what they return, the handles collected by
    the loop are the handles added to the manager's [child_processes]. *)
Lemma spawn_loop_registers env arrs count procs s out s1 :
  registers env ->
  spawn_loop env arrs count procs s = (Ret out, s1) ->
  exists new,
    out = procs ++ new /\
    child_processes (manager s1) = child_processes (manager s) ++ new.
Proof.
  intros Hreg.
  revert count procs s; induction arrs as [|arr arrs IH]; intros count procs s; simpl.
  - step. intros [= <- <-]. exists []. by rewrite !app_nil_r.
  - step. unfold spawn.
    destruct (spawn_child_processes env (trace s) arr (child_processes (manager s)))
      as [[[numb processes]|e] cps] eqn:Hspawn; [|done].
    apply Hreg in Hspawn as ->.
    intros H. apply IH in H as (new & -> & Hcps). simpl in Hcps.
    exists (processes ++ new). by rewrite !app_assoc.
Qed.

Lemma get_child_processes_registers env s procs s1 :
  registers env ->
  get_child_processes env s = (Ret procs, s1) ->
  child_processes (manager s1) = child_processes (manager s) ++ procs.
Proof.
  intros Hreg. unfold get_child_processes. step. intros H.
  by apply spawn_loop_registers in H as (new & -> & Hcps).
Qed.

(** ** The module-level [run] *)

Lemma spawn_and_run_spawned env s procs s1 :
  get_child_processes env s = (Ret procs, s1) ->
  spawn_and_run env s = qBitManager_run env (set_CHILD_PROCESSES procs s1).
Proof. intros H. unfold spawn_and_run. step. by rewrite H. Qed.

Lemma spawn_and_run_not_spawned env s e s1 :
  get_child_processes env s = (Raise e, s1) ->
  spawn_and_run env s = (Raise e, s1).
Proof. intros H. unfold spawn_and_run. step. by rewrite H. Qed.

(** An exception of class [Exception] leaves the [try] of [run] only if
    [get_child_processes] raised it: [qBitManager.run] lets nothing but
    [SystemExit] out. *)
Lemma spawn_and_run_exception env s e s1 :
  spawn_and_run env s = (Raise e, s1) ->
  isinstance e ExceptionC = true ->
  get_child_processes env s = (Raise e, s1).
Proof.
  destruct (get_child_processes env s) as [[procs|e1] s2] eqn:Hg.
  - rewrite (spawn_and_run_spawned _ _ _ _ Hg). intros Hrun He.
    by apply qBitManager_run_raise in Hrun as [-> | ->].
  - rewrite (spawn_and_run_not_spawned _ _ _ _ Hg). by intros [= <- <-].
Qed.

Lemma supervise_return env s s1 :
  spawn_and_run env s = (Ret tt, s1) -> supervise env s = (Ret tt, s1).
Proof. intros H. unfold supervise, try_except. by rewrite H. Qed.

(** [SystemExit] is neither a [KeyboardInterrupt] nor an [Exception]: it
    passes the handlers of [run]. *)
Lemma supervise_exit env s code s1 :
  spawn_and_run env s = (Raise (SystemExit code), s1) ->
  supervise env s = (Raise (SystemExit code), s1).
Proof. intros H. unfold supervise, try_except. by rewrite H. Qed.

Lemma supervise_interrupt env s s1 :
  spawn_and_run env s = (Raise KeyboardInterrupt, s1) ->
  supervise env s =
    (Raise (SystemExit 0),
     add_event (Log module_logger HNOTICE "Detected Ctrl+C - Terminating process" []) s1).
Proof. intros H. unfold supervise, try_except. by rewrite H. Qed.

Lemma supervise_exception env s e s1 :
  spawn_and_run env s = (Raise e, s1) ->
  isinstance e ExceptionC = true ->
  supervise env s =
    for_each (child_processes (manager s1)) (process env OpKill)
      (add_event
         (Log module_logger NOTICE
            "Attempting to terminate child processes, please wait a moment." [])
         s1).
Proof.
  intros H He. unfold supervise, try_except. rewrite H.
  by destruct e.
Qed.

Lemma run_supervises env s0 s :
  constructed env s0 s -> run env s0 = supervise env s.
Proof.
  intros [Hflags Hinit]. unfold run. step. rewrite Hflags. simpl.
  by rewrite Hinit.
Qed.

(** ** The exit hook *)

Lemma cleanup_loop_total env registry s :
  (forall h p, p ∈ registry ->
     process_call env h OpKill p = None /\ process_call env h OpTerminate p = None) ->
  for_each registry (fun p => process env OpKill p;; process env OpTerminate p) s =
    (Ret tt, add_events (cleanup_events registry) s).
Proof.
  revert s; induction registry as [|p ps IH]; intros s Hok; simpl.
  - step. by rewrite add_events_nil.
  - step. destruct (Hok (trace s) p) as [-> _]; [by left|]. simpl.
    destruct (Hok (trace s ++ [Kill p]) p) as [_ ->]; [by left|].
    rewrite !add_events_cons. apply IH. intros h q Hq. apply Hok. by right.
Qed.

(** [cleanup] handles no exception: the first [kill] that raises ends it, and
    the handles after that one get nothing. *)
Lemma cleanup_kill_raises env s p rest e :
  CHILD_PROCESSES s = p :: rest ->
  process_call env (trace s) OpKill p = Some e ->
  cleanup env s = (Raise e, add_event (Kill p) s).
Proof.
  intros Hreg Hkill. unfold cleanup. rewrite Hreg. simpl. step. by rewrite Hkill.
Qed.

Lemma cleanup_total env s :
  (forall h p, p ∈ CHILD_PROCESSES s ->
     process_call env h OpKill p = None /\ process_call env h OpTerminate p = None) ->
  cleanup env s = (Ret tt, add_events (cleanup_events (CHILD_PROCESSES s)) s).
Proof. apply cleanup_loop_total. Qed.

Lemma start_and_join_state env s r s' :
  start_and_join env s = (r, s') ->
  manager s' = manager s /\ CHILD_PROCESSES s' = CHILD_PROCESSES s.
Proof.
  unfold start_and_join. step.
  match goal with |- context [for_each ?ps ?f ?s0] =>
    destruct (for_each ps f s0) as [[[]|e] s1] eqn:Hstart end.
  - apply for_each_process_state in Hstart as [Hm Hc]. simpl in Hm, Hc.
    intros Hjoin. apply for_each_process_state in Hjoin as [Hm' Hc'].
    by rewrite Hm', Hc', Hm, Hc.
  - intros [= _ <-]. by apply for_each_process_state in Hstart.
Qed.

(** ** The claims on supervision *)

(** C1, amended: when [get_child_processes] has produced [procs] and
    [qBitManager.run] then returns, the module-level [run] returns too, and
    what has been started, in list order, and then joined, in the same order,
    is every handle of the manager's own [child_processes]; nothing else was
    done.  That list is [procs] when every category registers in it the
    handles it returns and it was empty before. *)
Theorem run_starts_then_joins_child_processes env s procs s1 s2 :
  get_child_processes env s = (Ret procs, s1) ->
  qBitManager_run env (set_CHILD_PROCESSES procs s1) = (Ret tt, s2) ->
  supervise env s = (Ret tt, s2) /\
  trace s2 =
    trace s1 ++
    Log manager_logger NOTICE "Starting %s child processes"
      [AInt (Z.of_nat (length (child_processes (manager s1))))]
    :: map (Proc OpStart) (child_processes (manager s1))
    ++ map (Proc OpJoin) (child_processes (manager s1)) /\
  (registers env ->
   child_processes (manager s) = [] ->
   child_processes (manager s1) = procs).
Proof.
  intros Hspawn Hrun. split; [|split].
  - apply supervise_return. by rewrite (spawn_and_run_spawned _ _ _ _ Hspawn).
  - apply qBitManager_run_return, start_and_join_return in Hrun as ->. done.
  - intros Hreg Hempty.
    rewrite (get_child_processes_registers _ _ _ _ Hreg Hspawn). by rewrite Hempty.
Qed.

(** C8: when the start/join phase of [qBitManager.run] raises [e], the method
    logs and raises [SystemExit] with status 0 if [e] is a
    [KeyboardInterrupt] and status 1 for every other exception; the handlers
    of the module-level [run] let that exit pass, and the process ends with
    that status. *)
Theorem run_failure_exit_status env s0 s procs s1 e s2 :
  constructed env s0 s ->
  get_child_processes env s = (Ret procs, s1) ->
  start_and_join env (set_CHILD_PROCESSES procs s1) = (Raise e, s2) ->
  run env s0 =
    (Raise (SystemExit (if isinstance e KeyboardInterruptC then 0 else 1)),
     add_event (termination_message e) s2) /\
  (main env s0).1 = Exited (if isinstance e KeyboardInterruptC then 0 else 1).
Proof.
  intros Hcons Hspawn Hfail.
  assert (run env s0 =
            (Raise (SystemExit (termination_status e)),
             add_event (termination_message e) s2)) as Hrun.
  { rewrite (run_supervises _ _ _ Hcons). apply supervise_exit.
    rewrite (spawn_and_run_spawned _ _ _ _ Hspawn).
    by apply qBitManager_run_failure. }
  split; [done|]. unfold main. by rewrite Hrun.
Qed.


(** The two places that issue [kill].  An exception of class [Exception] that
    reaches the handlers of the module-level [run] was raised by
    [get_child_processes], before any worker was started; [run] then logs,
    issues [kill], and no [terminate], on every handle of the manager's
    [child_processes], and returns.  A failure of the start/join phase leaves
    [qBitManager.run] as [SystemExit] and passes the handlers of [run], which
    issues no [kill]; it is the exit hook that then issues [kill] followed by
    [terminate] on every handle of the registry.  Both under the proviso that
    [kill] and [terminate] return. *)
Theorem failure_kills_workers env s :
  (forall e s1,
     spawn_and_run env s = (Raise e, s1) ->
     isinstance e ExceptionC = true ->
     (forall h p, p ∈ child_processes (manager s1) -> process_call env h OpKill p = None) ->
     get_child_processes env s = (Raise e, s1) /\
     supervise env s =
       (Ret tt,
        add_events
          (Log module_logger NOTICE
             "Attempting to terminate child processes, please wait a moment." []
           :: map (Proc OpKill) (child_processes (manager s1)))
          s1)) /\
  (forall procs s1 e s2,
     get_child_processes env s = (Ret procs, s1) ->
     start_and_join env (set_CHILD_PROCESSES procs s1) = (Raise e, s2) ->
     (forall h p, p ∈ procs ->
        process_call env h OpKill p = None /\ process_call env h OpTerminate p = None) ->
     supervise env s =
       (Raise (SystemExit (if isinstance e KeyboardInterruptC then 0 else 1)),
        add_event (termination_message e) s2) /\
     cleanup env (add_event (termination_message e) s2) =
       (Ret tt,
        add_events (flat_map (fun p => [Kill p; Terminate p]) procs)
          (add_event (termination_message e) s2))).
Proof.
  split.
  - intros e s1 Hraise He Hok. split; [by apply spawn_and_run_exception|].
    rewrite (supervise_exception _ _ _ _ Hraise He).
    rewrite for_each_process_total by done.
    by rewrite add_events_cons.
  - intros procs s1 e s2 Hspawn Hfail Hok. split.
    + apply supervise_exit. rewrite (spawn_and_run_spawned _ _ _ _ Hspawn).
      by apply qBitManager_run_failure.
    + apply start_and_join_state in Hfail as [_ Hreg]. simpl in Hreg.
      rewrite cleanup_total; simpl; rewrite Hreg; done.
Qed.

(** ** The claims at sample runs *)

(** The scenarios of the version gate: "4.3.5" validated, "4.5.0", and a
    fetch that fails. *)
Example scenario_supported :
  (main supported_env fresh).1 = Completed /\
  _version_validator (holding v4_3_5 true) =
    (Ret tt,
     add_event
       (Log manager_logger HNOTICE "Current qBitTorrent version is supported: %s"
          [AVersion v4_3_5])
       (holding v4_3_5 true)).
Proof. split; reflexivity. Qed.

Example scenario_unsupported :
  (main unsupported_env fresh).1 = Exited 1 /\
  issued OpStart 1%nat (trace (main unsupported_env fresh).2) = false.
Proof. split; reflexivity. Qed.

Example scenario_fetch_fails :
  (main unreachable_env fresh).1 = Completed /\
  current_qbit_version (manager (built unreachable_env)) = min_supported_version /\
  _validated_version (manager (built unreachable_env)) = false.
Proof. repeat split; reflexivity. Qed.

Lemma version_gate_inclusive_range_witness :
  (exists s',
     _version_validator (holding min_supported_version true) = (Ret tt, s') /\
     manager s' = manager (holding min_supported_version true)) /\
  (exists s',
     _version_validator (holding max_supported_version false) = (Ret tt, s') /\
     manager s' = manager (holding max_supported_version false)) /\
  _version_validator (holding v4_5_0 true) =
    (Raise (SystemExit 1),
     add_event
       (Log manager_logger CRITICAL
          "You are currently running qBitTorrent version %s, Supported version range is %s to %s"
          [AVersion v4_5_0; AVersion min_supported_version; AVersion max_supported_version])
       (holding v4_5_0 true)) /\
  (main unsupported_env fresh).1 = Exited 1.
Proof.
  split; [|split; [|split]].
  - apply (proj1 (version_gate_inclusive_range min_supported_version)); reflexivity.
  - apply (proj1 (version_gate_inclusive_range max_supported_version)); reflexivity.
  - apply (proj1 (proj2 (version_gate_inclusive_range v4_5_0))); reflexivity.
  - apply (proj2 (proj2 (version_gate_inclusive_range v4_5_0)) unsupported_env fresh "v4.5.0");
      reflexivity.
Defined.

Lemma unvalidated_version_grace_delay_witness :
  _version_validator (holding min_supported_version false) =
    (Ret tt,
     add_event (Sleep 10)
       (add_event
          (Log manager_logger HNOTICE
             "Could not validate current qBitTorrent version, assuming: %s"
             [AVersion min_supported_version])
          (holding min_supported_version false))).
Proof.
  apply (unvalidated_version_grace_delay (holding min_supported_version false)); reflexivity.
Defined.

Lemma fetch_failure_falls_back_witness :
  current_qbit_version
    (manager (fallback (add_event AppVersion (add_event (config_message unreachable_env) fresh))))
    = min_supported_version /\
  __init__ unreachable_env fresh =
    after_version_gate unreachable_env
      (add_event (Sleep 10)
         (add_event
            (Log manager_logger HNOTICE
               "Could not validate current qBitTorrent version, assuming: %s"
               [AVersion min_supported_version])
            (fallback
               (add_event AppVersion (add_event (config_message unreachable_env) fresh))))).
Proof.
  pose proof
    (fetch_failure_falls_back unreachable_env fresh (RequestException "Connection refused")
       (add_event AppVersion (add_event (config_message unreachable_env) fresh))
       eq_refl) as (_ & Hmin & _ & _ & Hinit).
  exact (conj Hmin Hinit).
Defined.

Lemma constructed_version_in_range_witness :
  version_le min_supported_version
    (current_qbit_version (manager (__init__ unreachable_env fresh).2))
  && version_le (current_qbit_version (manager (__init__ unreachable_env fresh).2))
       max_supported_version = true.
Proof.
  exact (proj1 (constructed_version_in_range unreachable_env fresh
                  (__init__ unreachable_env fresh).2 eq_refl)).
Defined.

Lemma is_alive_network_failure_witness :
  (exists s',
     is_alive unreachable_env fresh = (Ret false, s') /\
     should_delay_torrent_scan (manager s') = true /\
     trace s' =
       [AppVersion;
        Log manager_logger WARNING "Could not connect to %s:%s"
          [AStr "localhost"; AInt 8105]]) /\
  is_alive crashing_client_env fresh =
    (Raise (OtherException "AttributeError"), add_event AppVersion fresh).
Proof.
  split.
  - apply (proj1 (is_alive_network_failure unreachable_env fresh
                    (RequestException "Connection refused") eq_refl eq_refl)).
    reflexivity.
  - apply (proj2 (is_alive_network_failure crashing_client_env fresh
                    (OtherException "AttributeError") eq_refl eq_refl)).
    reflexivity.
Defined.

Lemma is_alive_sentinel_witness :
  is_alive crashing_client_env recently_confirmed = (Ret true, recently_confirmed) /\
  exists s',
    is_alive supported_env fresh = (Ret true, s') /\
    container (expiring_bool (manager s')) !! 1 = Some 12.
Proof.
  split.
  - apply (proj1 (is_alive_sentinel crashing_client_env recently_confirmed)). reflexivity.
  - destruct (proj2 (is_alive_sentinel supported_env fresh) "v4.3.5" eq_refl eq_refl)
      as (s' & Halive & Htrace & Hlookup & _).
    exists s'. split; [exact Halive|].
    rewrite Hlookup, Htrace. reflexivity.
Defined.


Lemma run_failure_exit_status_witness :
  (main interrupted_env fresh).1 = Exited 0 /\
  (main broken_join_env fresh).1 = Exited 1.
Proof.
  split.
  - apply (run_failure_exit_status interrupted_env fresh (built interrupted_env)
             [1%nat] (spawned interrupted_env) KeyboardInterrupt
             (start_and_join interrupted_env
                (set_CHILD_PROCESSES [1%nat] (spawned interrupted_env))).2);
      [split; vm_compute; reflexivity | vm_compute; reflexivity | vm_compute; reflexivity].
  - apply (run_failure_exit_status broken_join_env fresh (built broken_join_env)
             [1%nat] (spawned broken_join_env) (OtherException "RuntimeError")
             (start_and_join broken_join_env
                (set_CHILD_PROCESSES [1%nat] (spawned broken_join_env))).2);
      [split; vm_compute; reflexivity | vm_compute; reflexivity | vm_compute; reflexivity].
Defined.

(** The claim C1 as written fails when a category only returns its handles:
    [get_child_processes] produces handle [1], [qBitManager.run] returns, the
    whole of [run] returns, and [start] was never issued on handle [1]. *)
Lemma produced_handle_never_started :
  get_child_processes aggregating_env (built aggregating_env)
    = (Ret [1%nat], spawned aggregating_env) /\
  (qBitManager_run aggregating_env
     (set_CHILD_PROCESSES [1%nat] (spawned aggregating_env))).1 = Ret tt /\
  issued OpStart 1%nat
    (trace (qBitManager_run aggregating_env
              (set_CHILD_PROCESSES [1%nat] (spawned aggregating_env))).2) = false /\
  (run aggregating_env fresh).1 = Ret tt /\
  CHILD_PROCESSES (run aggregating_env fresh).2 = [1%nat] /\
  issued OpStart 1%nat (trace (run aggregating_env fresh).2) = false.
Proof. repeat split; vm_compute; reflexivity. Qed.

Lemma run_starts_then_joins_child_processes_witness :
  trace (qBitManager_run supported_env
           (set_CHILD_PROCESSES [1%nat] (spawned supported_env))).2 =
    trace (spawned supported_env) ++
    [Log manager_logger NOTICE "Starting %s child processes" [AInt 1]; Start 1%nat; Join 1%nat] /\
  child_processes (manager (spawned supported_env)) = [1%nat].
Proof.
  assert (get_child_processes supported_env (built supported_env)
            = (Ret [1%nat], spawned supported_env)) as Hspawn
    by (vm_compute; reflexivity).
  assert (qBitManager_run supported_env
            (set_CHILD_PROCESSES [1%nat] (spawned supported_env))
          = (Ret tt,
             (qBitManager_run supported_env
                (set_CHILD_PROCESSES [1%nat] (spawned supported_env))).2)) as Hrun
    by (vm_compute; reflexivity).
  destruct (run_starts_then_joins_child_processes supported_env (built supported_env)
              [1%nat] (spawned supported_env) _ Hspawn Hrun) as (_ & Htrace & Hsame).
  split.
  - exact Htrace.
  - apply Hsame; [|vm_compute; reflexivity].
    intros h arr cps n ps cps' Hreg. by injection Hreg as <- <- <-.
Defined.

(** When [join] raises an ordinary exception while worker [1] runs,
    [qBitManager.run] exits with status 1, that exit passes the handler of
    [run], and [run] issues no [kill]; the worker then gets [kill] and
    [terminate] from the exit hook. *)
Lemma failure_in_run_bypasses_kill_handler :
  (start_and_join broken_join_env
     (set_CHILD_PROCESSES [1%nat] (spawned broken_join_env))).1
    = Raise (OtherException "RuntimeError") /\
  (run broken_join_env fresh).1 = Raise (SystemExit 1) /\
  issued OpStart 1%nat (trace (run broken_join_env fresh).2) = true /\
  issued OpKill 1%nat (trace (run broken_join_env fresh).2) = false /\
  issued OpKill 1%nat (trace (main broken_join_env fresh).2) = true /\
  issued OpTerminate 1%nat (trace (main broken_join_env fresh).2) = true.
Proof. repeat split; vm_compute; reflexivity. Qed.

Lemma failure_kills_workers_witness :
  supervise failing_spawn_env (built failing_spawn_env) =
    (Ret tt,
     add_events
       (Log module_logger NOTICE
          "Attempting to terminate child processes, please wait a moment." []
        :: map (Proc OpKill) [1%nat])
       (spawned failing_spawn_env)) /\
  cleanup broken_join_env
    (add_event (termination_message (OtherException "RuntimeError"))
       (start_and_join broken_join_env
          (set_CHILD_PROCESSES [1%nat] (spawned broken_join_env))).2) =
    (Ret tt,
     add_events [Kill 1; Terminate 1]%nat
       (add_event (termination_message (OtherException "RuntimeError"))
          (start_and_join broken_join_env
             (set_CHILD_PROCESSES [1%nat] (spawned broken_join_env))).2)).
Proof.
  assert (spawn_and_run failing_spawn_env (built failing_spawn_env)
          = (Raise (OtherException "OSError"), spawned failing_spawn_env)) as Hraise
    by (vm_compute; reflexivity).
  assert (child_processes (manager (spawned failing_spawn_env)) = [1%nat]) as Hcps
    by (vm_compute; reflexivity).
  assert (get_child_processes broken_join_env (built broken_join_env)
          = (Ret [1%nat], spawned broken_join_env)) as Hspawn
    by (vm_compute; reflexivity).
  assert (start_and_join broken_join_env
            (set_CHILD_PROCESSES [1%nat] (spawned broken_join_env))
          = (Raise (OtherException "RuntimeError"),
             (start_and_join broken_join_env
                (set_CHILD_PROCESSES [1%nat] (spawned broken_join_env))).2)) as Hfail
    by (vm_compute; reflexivity).
  pose proof (proj1 (failure_kills_workers failing_spawn_env (built failing_spawn_env))
                _ _ Hraise eq_refl (fun h p _ => eq_refl)) as [_ Hkill].
  pose proof (proj2 (failure_kills_workers broken_join_env (built broken_join_env))
                _ _ _ _ Hspawn Hfail (fun h p _ => conj eq_refl eq_refl)) as [_ Hhook].
  rewrite Hcps in Hkill.
  exact (conj Hkill Hhook).
Defined.

(** * Further properties of the module *)

(** ** Loops that fail *)

(** A loop of one operation that raises has issued the operation on the
    handles up to and including the one that raised, and on no later one. *)
Lemma for_each_process_raise env op ps s e s' :
  for_each ps (process env op) s = (Raise e, s') ->
  exists done p rest,
    ps = done ++ p :: rest /\
    s' = add_events (map (Proc op) (done ++ [p])) s /\
    process_call env (trace s ++ map (Proc op) done) op p = Some e.
Proof.
  revert s; induction ps as [|p ps IH]; intros s; simpl.
  - step. done.
  - step. destruct (process_call env (trace s) op p) as [e1|] eqn:Hcall.
    + intros [= <- <-]. exists [], p, ps. simpl.
      rewrite app_nil_r. repeat split; done.
    + intros H. apply IH in H as (done & q & rest & -> & -> & Hq).
      exists (p :: done), q, rest. simpl. repeat split.
      * by rewrite add_events_cons.
      * simpl in Hq. by rewrite <- app_assoc in Hq.
Qed.

Lemma issued_app op p t1 t2 :
  issued op p (t1 ++ t2) = issued op p t1 || issued op p t2.
Proof. unfold issued. apply existsb_app. Qed.

Lemma issued_map_true op p ps :
  issued op p (map (Proc op) ps) = true -> p ∈ ps.
Proof.
  induction ps as [|q ps IH]; simpl; [done|].
  intros H. apply orb_true_iff in H as [H|H].
  - destruct op; apply Nat.eqb_eq in H as ->; by left.
  - right. by apply IH.
Qed.

Lemma issued_map_other op op' p ps :
  op <> op' -> issued op p (map (Proc op') ps) = false.
Proof.
  intros Hne. induction ps as [|q ps IH]; [done|].
  change (map (Proc op') (q :: ps)) with ([Proc op' q] ++ map (Proc op') ps).
  rewrite issued_app, IH, orb_false_r. by destruct op, op'.
Qed.

Lemma start_and_join_raise env s e s' :
  start_and_join env s = (Raise e, s') ->
  exists done p rest,
    child_processes (manager s) = done ++ p :: rest /\
    (s' = add_events
            (Log manager_logger NOTICE "Starting %s child processes"
               [AInt (Z.of_nat (length (child_processes (manager s))))]
             :: map (Proc OpStart) (done ++ [p]))
            s \/
     s' = add_events
            (Log manager_logger NOTICE "Starting %s child processes"
               [AInt (Z.of_nat (length (child_processes (manager s))))]
             :: map (Proc OpStart) (child_processes (manager s))
             ++ map (Proc OpJoin) (done ++ [p]))
            s).
Proof.
  unfold start_and_join. step.
  match goal with |- context [for_each ?ps ?f ?s0] =>
    destruct (for_each ps f s0) as [[[]|e1] s1] eqn:Hstart end.
  - apply for_each_process_return in Hstart as ->. simpl. intros Hjoin.
    apply for_each_process_raise in Hjoin as (done & p & rest & Hcps & -> & _).
    exists done, p, rest. split; [done|]. right.
    by rewrite add_events_cons, add_events_app.
  - intros [= <- <-].
    apply for_each_process_raise in Hstart as (done & p & rest & Hcps & -> & _).
    exists done, p, rest. split; [done|]. left.
    by rewrite add_events_cons.
Qed.


(** ** Further properties: statements *)

(** X1: when the command line asks for an early exit, the module-level [run]
    raises [SystemExit(0)] at once: nothing is logged, no manager is
    constructed, no category is asked and no worker is touched; with an empty
    registry the whole process consists of that one call. *)
Theorem early_exit_before_construction env s :
  process_flags env (trace s) = Ret true ->
  run env s = (Raise (SystemExit 0), add_event ProcessFlags s) /\
  (CHILD_PROCESSES s = [] -> main env s = (Exited 0, add_event ProcessFlags s)).
Proof.
  intros Hflags.
  assert (run env s = (Raise (SystemExit 0), add_event ProcessFlags s)) as Hrun.
  { unfold run. step. by rewrite Hflags. }
  split; [done|]. intros Hreg. unfold main, cleanup. rewrite Hrun. simpl.
  by rewrite Hreg.
Qed.

(** X2: [qBitManager.run] changes neither the manager nor the registry, and
    lets no exception out but [SystemExit].  When it does not return, some
    handle [p] of [child_processes] made it fail, and what was done before
    the final message is either the starts up to [p] and no join at all, or
    all the starts and then the joins up to [p]: no handle is joined before
    every handle is started, and nothing is issued after the failure. *)
Theorem run_failure_shape env s r s' :
  qBitManager_run env s = (r, s') ->
  manager s' = manager s /\
  CHILD_PROCESSES s' = CHILD_PROCESSES s /\
  (r = Ret tt \/
   exists e done p rest,
     child_processes (manager s) = done ++ p :: rest /\
     r = Raise (SystemExit (if isinstance e KeyboardInterruptC then 0 else 1)) /\
     (trace s' =
        trace s ++
        Log manager_logger NOTICE "Starting %s child processes"
          [AInt (Z.of_nat (length (child_processes (manager s))))]
        :: map (Proc OpStart) (done ++ [p]) ++ [termination_message e] \/
      trace s' =
        trace s ++
        Log manager_logger NOTICE "Starting %s child processes"
          [AInt (Z.of_nat (length (child_processes (manager s))))]
        :: map (Proc OpStart) (child_processes (manager s))
        ++ map (Proc OpJoin) (done ++ [p]) ++ [termination_message e])).
Proof.
  destruct (start_and_join env s) as [[[]|e] s1] eqn:Hbody.
  - intros Hrun.
    assert (qBitManager_run env s = (Ret tt, s1)) as Hret
      by (unfold qBitManager_run, try_except; by rewrite Hbody).
    rewrite Hret in Hrun. injection Hrun as <- <-.
    apply start_and_join_state in Hbody as [Hm Hc]. auto.
  - rewrite (qBitManager_run_failure _ _ _ _ Hbody). intros [= <- <-].
    pose proof (start_and_join_state _ _ _ _ Hbody) as [Hm Hc].
    split; [done|]. split; [done|]. right.
    apply start_and_join_raise in Hbody as (done & p & rest & Hcps & [-> | ->]).
    + exists e, done, p, rest. split; [done|]. split; [done|]. left.
      simpl. by rewrite <- !app_assoc.
    + exists e, done, p, rest. split; [done|]. split; [done|]. right.
      simpl. rewrite <- app_assoc. simpl. by rewrite <- app_assoc.
Qed.


(** ** Further properties: aggregation *)

Lemma spawn_loop_trace env arrs count procs s r s1 :
  spawn_loop env arrs count procs s = (r, s1) ->
  (exists out, r = Ret out /\ trace s1 = trace s ++ map SpawnChildProcesses arrs) \/
  (exists e init arr rest,
     r = Raise e /\ arrs = init ++ arr :: rest /\
     trace s1 = trace s ++ map SpawnChildProcesses (init ++ [arr])).
Proof.
  revert count procs s; induction arrs as [|arr arrs IH]; intros count procs s; simpl.
  - step. intros [= <- <-]. left. exists procs. by rewrite app_nil_r.
  - step. unfold spawn.
    destruct (spawn_child_processes env (trace s) arr (child_processes (manager s)))
      as [[[numb processes]|e] cps].
    + intros H. apply IH in H as [(out & -> & Ht) | (e & init & a & rest & -> & -> & Ht)].
      * left. exists out. split; [done|]. rewrite Ht. simpl. by rewrite <- app_assoc.
      * right. exists e, (arr :: init), a, rest. repeat split.
        rewrite Ht. simpl. by rewrite <- app_assoc.
    + intros [= <- <-]. right. exists e, [], arr, arrs. done.
Qed.

Lemma issued_spawn_events op p arrs :
  issued op p (map SpawnChildProcesses arrs) = false.
Proof. induction arrs as [|arr arrs IH]; [done|]. simpl. exact IH. Qed.

(** X4: [get_child_processes] asks the categories one after the other, in
    the order of [managed_objects], and stops at the first one that raises:
    the categories after it are not asked.  It issues no operation on any
    worker (nothing is started) and leaves the registry alone; with no
    category at all it returns the empty list. *)
Theorem aggregation_asks_in_order env s r s1 :
  get_child_processes env s = (r, s1) ->
  CHILD_PROCESSES s1 = CHILD_PROCESSES s /\
  (forall op p, issued op p (trace s1) = issued op p (trace s)) /\
  (managed_objects (manager s) = [] -> r = Ret []) /\
  ((exists procs,
      r = Ret procs /\
      trace s1 =
        trace s ++
        Log manager_logger HNOTICE "Managing %s categories"
          [AInt (Z.of_nat (length (managed_objects (manager s))))]
        :: map SpawnChildProcesses (managed_objects (manager s))) \/
   (exists e init arr rest,
      r = Raise e /\
      managed_objects (manager s) = init ++ arr :: rest /\
      trace s1 =
        trace s ++
        Log manager_logger HNOTICE "Managing %s categories"
          [AInt (Z.of_nat (length (managed_objects (manager s))))]
        :: map SpawnChildProcesses (init ++ [arr]))).
Proof.
  intros H. split; [by apply get_child_processes_registry in H|].
  assert (forall asked,
            trace s1 =
              trace s ++
              Log manager_logger HNOTICE "Managing %s categories"
                [AInt (Z.of_nat (length (managed_objects (manager s))))]
              :: map SpawnChildProcesses asked ->
            forall op p, issued op p (trace s1) = issued op p (trace s)) as Hquiet.
  { intros asked -> op p. rewrite issued_app.
    change (issued op p (Log manager_logger HNOTICE "Managing %s categories"
                           [AInt (Z.of_nat (length (managed_objects (manager s))))]
                         :: map SpawnChildProcesses asked))
      with (issued op p (map SpawnChildProcesses asked)).
    by rewrite issued_spawn_events, orb_false_r. }
  unfold get_child_processes in H. step.
  split; [|split].
  - apply spawn_loop_trace in H as [(out & -> & Ht) | (e & init & a & rest & -> & Hm & Ht)];
      simpl in Ht; rewrite <- app_assoc in Ht; simpl in Ht; eauto.
  - intros Hnone. rewrite Hnone in H. simpl in H. step. by injection H as <- _.
  - apply spawn_loop_trace in H as [(out & -> & Ht) | (e & init & a & rest & -> & Hm & Ht)];
      simpl in Ht; rewrite <- app_assoc in Ht; simpl in Ht.
    + left. eauto.
    + right. exists e, init, a, rest. done.
Qed.

Lemma init_registry env s r s1 :
  __init__ env s = (r, s1) -> CHILD_PROCESSES s1 = CHILD_PROCESSES s.
Proof.
  unfold __init__, establish_version, fetch_and_parse, _version_validator,
    after_version_gate, update_ffprobe, build_arr_manager.
  step.
  destruct (client_app_version env _) as [text|e1]; simpl.
  - destruct (version_parse env text) as [v|e2]; simpl.
    + destruct (version_le min_supported_version v && version_le v max_supported_version);
        simpl; [|by intros [= _ <-]].
      destruct (ffprobe_update env _) as [e3|]; simpl.
      * destruct e3; simpl; try (by intros [= _ <-]);
          destruct (build_arr_instances env _ _) as [[arrs|e4] cps]; by intros [= _ <-].
      * destruct (build_arr_instances env _ _) as [[arrs|e4] cps]; by intros [= _ <-].
    + destruct (ffprobe_update env _) as [e3|]; simpl.
      * destruct e3; simpl; try (by intros [= _ <-]);
          destruct (build_arr_instances env _ _) as [[arrs|e4] cps]; by intros [= _ <-].
      * destruct (build_arr_instances env _ _) as [[arrs|e4] cps]; by intros [= _ <-].
  - destruct (ffprobe_update env _) as [e3|]; simpl.
    + destruct e3; simpl; try (by intros [= _ <-]);
        destruct (build_arr_instances env _ _) as [[arrs|e4] cps]; by intros [= _ <-].
    + destruct (build_arr_instances env _ _) as [[arrs|e4] cps]; by intros [= _ <-].
Qed.

Lemma cleanup_empty_registry env s :
  CHILD_PROCESSES s = [] -> cleanup env s = (Ret tt, s).
Proof. intros H. unfold cleanup. by rewrite H. Qed.

(** X5: when a category raises while [get_child_processes] runs, the registry
    has not been assigned.  If the exception is a [KeyboardInterrupt] the
    process logs and ends with status 0; if it is another exception outside
    [Exception] it leaves [run] uncaught.  Either way, from an empty registry
    the exit hook has nothing to do: no [kill] or [terminate] is issued, also
    not on the workers that earlier categories had registered. *)
Theorem failure_during_aggregation env s0 s e s1 :
  constructed env s0 s ->
  CHILD_PROCESSES s0 = [] ->
  get_child_processes env s = (Raise e, s1) ->
  isinstance e ExceptionC = false ->
  CHILD_PROCESSES s1 = [] /\
  (isinstance e KeyboardInterruptC = true ->
   main env s0 =
     (Exited 0,
      add_event (Log module_logger HNOTICE "Detected Ctrl+C - Terminating process" []) s1)) /\
  (isinstance e KeyboardInterruptC = false ->
   main env s0 = (outcome_of (Raise e), s1)).
Proof.
  intros Hcons Hempty Hspawn He.
  assert (CHILD_PROCESSES s1 = []) as Hreg.
  { rewrite (get_child_processes_registry _ _ _ _ Hspawn).
    destruct Hcons as [_ Hinit]. by rewrite (init_registry _ _ _ _ Hinit). }
  pose proof (spawn_and_run_not_spawned _ _ _ _ Hspawn) as Hbody.
  split; [done|]. unfold main. rewrite (run_supervises _ _ _ Hcons).
  split; intros Hki.
  - destruct e; try done. rewrite (supervise_interrupt _ _ _ Hbody).
    simpl. by rewrite cleanup_empty_registry.
  - assert (supervise env s = (Raise e, s1)) as ->.
    { unfold supervise, try_except. rewrite Hbody. by destruct e. }
    simpl. by rewrite cleanup_empty_registry.
Qed.

(** ** Further properties: the liveness probe *)

(** X6: after a probe that went to the client and succeeded, the answer is
    cached: as long as the clock reads less than the time of the insertion plus
    the time-to-live, the next [is_alive] returns [True] and does nothing,
    whatever the client would answer; once the clock has reached that time,
    the next [is_alive] calls the client again. *)
Theorem liveness_cached_until_expiry env s text :
  ExpiringSet_contains (time_time env (trace s)) 1 (expiring_bool (manager s)) = false ->
  client_app_version env (trace s) = Ret text ->
  let s1 := (is_alive env s).2 in
  let expiry := time_time env (trace s1) + max_age_seconds (expiring_bool (manager s)) in
  forall env',
    (time_time env' (trace s1) < expiry -> is_alive env' s1 = (Ret true, s1)) /\
    (expiry <= time_time env' (trace s1) ->
     exists rest, trace (is_alive env' s1).2 = trace s1 ++ AppVersion :: rest).
Proof.
  intros Hc Hcall s1 expiry env'.
  assert (forall t, ExpiringSet_contains t 1 (expiring_bool (manager s1)) = (t <? expiry))
    as Hcached.
  { intros t. subst s1 expiry. rewrite is_alive_probe by done. rewrite Hcall. simpl.
    apply ExpiringSet_add_contains. }
  split; intros Htime.
  - apply is_alive_cached. rewrite Hcached. by apply Z.ltb_lt.
  - rewrite is_alive_probe by (rewrite Hcached; by apply Z.ltb_ge).
    destruct (client_app_version env' (trace s1)) as [text'|e]; simpl.
    + eexists. by rewrite <- app_assoc.
    + destruct e; simpl; eexists; by rewrite <- ?app_assoc.
Qed.

(** X7: whatever [is_alive] does, it issues no operation on a worker and
    leaves the registry, the version, its flag and the manager's workers and
    categories as they are.  The delay flag is never cleared, and it is set
    exactly when [is_alive] returns [False]. *)
Theorem is_alive_frame env s r s' :
  is_alive env s = (r, s') ->
  CHILD_PROCESSES s' = CHILD_PROCESSES s /\
  current_qbit_version (manager s') = current_qbit_version (manager s) /\
  _validated_version (manager s') = _validated_version (manager s) /\
  child_processes (manager s') = child_processes (manager s) /\
  managed_objects (manager s') = managed_objects (manager s) /\
  should_delay_torrent_scan (manager s') =
    should_delay_torrent_scan (manager s)
    || match r with Ret false => true | _ => false end /\
  (forall op p, issued op p (trace s') = issued op p (trace s)).
Proof.
  destruct (ExpiringSet_contains (time_time env (trace s)) 1 (expiring_bool (manager s)))
    eqn:Hc.
  - rewrite is_alive_cached by done. intros [= <- <-].
    by rewrite orb_false_r.
  - rewrite is_alive_probe by done.
    destruct (client_app_version env (trace s)) as [text|e].
    + intros [= <- <-]. simpl. rewrite orb_false_r. repeat split.
      intros op p. rewrite <- app_assoc, issued_app. simpl. by rewrite orb_false_r.
    + destruct e; intros [= <- <-]; simpl; rewrite ?orb_true_r, ?orb_false_r;
        repeat split; intros op p; rewrite <- ?app_assoc, issued_app; simpl;
        by rewrite orb_false_r.
Qed.

(** ** Further properties: no worker is left behind *)

Lemma issued_termination_message op p e : issued op p [termination_message e] = false.
Proof. by destruct e. Qed.

(** The starts issued by [qBitManager.run] are starts of handles of
    [child_processes], whether it returns or not. *)
Lemma issued_cons op p e t :
  issued op p (e :: t) = issued op p [e] || issued op p t.
Proof. apply (issued_app op p [e] t). Qed.

Lemma qBitManager_run_starts env s r s' :
  qBitManager_run env s = (r, s') ->
  CHILD_PROCESSES s' = CHILD_PROCESSES s /\
  exists added,
    trace s' = trace s ++ added /\
    forall p, issued OpStart p added = true -> p ∈ child_processes (manager s).
Proof.
  destruct (start_and_join env s) as [[[]|e] s1] eqn:Hbody.
  - intros Hrun.
    assert (qBitManager_run env s = (Ret tt, s1)) as Hret
      by (unfold qBitManager_run, try_except; by rewrite Hbody).
    rewrite Hret in Hrun. injection Hrun as <- <-.
    pose proof (start_and_join_state _ _ _ _ Hbody) as [_ Hc]. split; [done|].
    apply start_and_join_return in Hbody as ->.
    eexists. split; [done|]. intros p. unfold start_join_events.
    rewrite issued_cons, issued_app, (issued_map_other OpStart OpJoin) by done.
    simpl. rewrite orb_false_r. apply issued_map_true.
  - rewrite (qBitManager_run_failure _ _ _ _ Hbody). intros [= <- <-].
    pose proof (start_and_join_state _ _ _ _ Hbody) as [_ Hc]. split; [done|].
    apply start_and_join_raise in Hbody as (done & q & rest & Hcps & [-> | ->]).
    + eexists (_ ++ [termination_message e]).
      split; [simpl; by rewrite <- app_assoc|]. intros p.
      rewrite issued_app, issued_termination_message, orb_false_r, issued_cons.
      simpl. intros H. apply issued_map_true in H. rewrite Hcps.
      apply elem_of_app in H as [H|H]; [apply elem_of_app; by left|].
      apply list_elem_of_singleton in H as ->. apply elem_of_app. right. by left.
    + eexists (_ ++ [termination_message e]).
      split; [simpl; by rewrite <- app_assoc|]. intros p.
      rewrite issued_app, issued_termination_message, orb_false_r, issued_cons,
        issued_app, (issued_map_other OpStart OpJoin) by done.
      simpl. rewrite orb_false_r. apply issued_map_true.
Qed.

Lemma get_child_processes_quiet env s r s1 :
  get_child_processes env s = (r, s1) ->
  exists added,
    trace s1 = trace s ++ added /\ forall op p, issued op p added = false.
Proof.
  unfold get_child_processes. step. intros H.
  apply spawn_loop_trace in H as [(out & _ & Ht) | (e & init & a & rest & _ & _ & Ht)];
    simpl in Ht; rewrite <- app_assoc in Ht; eexists; (split; [exact Ht|]);
    intros op p; rewrite issued_app, issued_spawn_events; done.
Qed.

Lemma supervise_spawned env s procs s1 :
  get_child_processes env s = (Ret procs, s1) ->
  supervise env s = qBitManager_run env (set_CHILD_PROCESSES procs s1).
Proof.
  intros Hspawn. pose proof (spawn_and_run_spawned _ _ _ _ Hspawn) as Hbody.
  destruct (qBitManager_run env (set_CHILD_PROCESSES procs s1)) as [[[]|e] s2] eqn:Hrun.
  - by apply supervise_return.
  - apply qBitManager_run_raise in Hrun as [-> | ->]; by apply supervise_exit.
Qed.

(** X9: suppose the categories register the handles they return, the manager
    holds no worker when [run] enters its [try], and [kill] and [terminate]
    return.  Then, however the [try] statement of [run] ends, every handle
    that was started in it is in the registry [CHILD_PROCESSES] when the exit
    hook runs, and the hook issues [kill] and [terminate] on every handle of
    the registry: no started worker is left without a [kill]. *)
Theorem started_workers_are_killed env s r s1 :
  registers env ->
  child_processes (manager s) = [] ->
  (forall h p,
     process_call env h OpKill p = None /\ process_call env h OpTerminate p = None) ->
  supervise env s = (r, s1) ->
  exists added,
    trace s1 = trace s ++ added /\
    (forall p, issued OpStart p added = true -> p ∈ CHILD_PROCESSES s1) /\
    cleanup env s1 =
      (Ret tt,
       add_events (flat_map (fun p => [Kill p; Terminate p]) (CHILD_PROCESSES s1)) s1).
Proof.
  intros Hreg Hempty Hok Hsup.
  assert (cleanup env s1 =
            (Ret tt,
             add_events (flat_map (fun p => [Kill p; Terminate p]) (CHILD_PROCESSES s1)) s1))
    as Hhook by (apply cleanup_total; auto).
  destruct (get_child_processes env s) as [[procs|e] sa] eqn:Hspawn.
  - destruct (get_child_processes_quiet _ _ _ _ Hspawn) as (quiet & Hta & Hquiet).
    pose proof (get_child_processes_registers _ _ _ _ Hreg Hspawn) as Hcps.
    rewrite Hempty in Hcps. simpl in Hcps.
    rewrite (supervise_spawned _ _ _ _ Hspawn) in Hsup.
    apply qBitManager_run_starts in Hsup as (Hc & added & Ht & Hstarted).
    simpl in Hc, Ht, Hstarted.
    exists (quiet ++ added). split; [by rewrite Ht, Hta, app_assoc|]. split; [|done].
    intros p. rewrite issued_app, Hquiet. simpl. rewrite Hc, <- Hcps. apply Hstarted.
  - destruct (get_child_processes_quiet _ _ _ _ Hspawn) as (quiet & Hta & Hquiet).
    pose proof (spawn_and_run_not_spawned _ _ _ _ Hspawn) as Hbody.
    destruct (isinstance e KeyboardInterruptC) eqn:Hki.
    + destruct e; try done. rewrite (supervise_interrupt _ _ _ Hbody) in Hsup.
      injection Hsup as <- <-. eexists (quiet ++ [_]).
      split; [simpl; by rewrite Hta, <- app_assoc|]. split; [|done].
      intros p. by rewrite issued_app, Hquiet.
    + destruct (isinstance e ExceptionC) eqn:Hex.
      * rewrite (supervise_exception _ _ _ _ Hbody Hex) in Hsup.
        rewrite for_each_process_total in Hsup by (intros; apply Hok).
        injection Hsup as <- <-. eexists (quiet ++ _ :: map (Proc OpKill) _).
        split; [simpl; by rewrite Hta, <- !app_assoc|]. split; [|done].
        intros p. rewrite issued_app, Hquiet, issued_cons,
          (issued_map_other OpStart OpKill) by done. done.
      * assert (supervise env s = (Raise e, sa)) as Hprop.
        { unfold supervise, try_except. rewrite Hbody. by destruct e. }
        rewrite Hprop in Hsup. injection Hsup as <- <-.
        exists quiet. split; [done|]. split; [|done].
        intros p. by rewrite Hquiet.
Qed.

(** ** Further properties: which releases the gate lets through *)

Lemma strip_cons_inv (l : list N) a t :
  strip_trailing_zeros l = a :: t ->
  exists l', l = a :: l' /\ strip_trailing_zeros l' = t.
Proof.
  destruct l as [|x rest]; simpl; [done|].
  destruct (strip_trailing_zeros rest) as [|y ys] eqn:Hrest.
  - destruct (x =? 0)%N; [done|]. intros [= <- <-]. by exists rest.
  - intros [= <- <-]. by exists rest.
Qed.

Lemma strip_cons_nonzero (a : N) l :
  a <> 0%N -> strip_trailing_zeros (a :: l) = a :: strip_trailing_zeros l.
Proof.
  intros Ha. simpl. destruct (strip_trailing_zeros l); [|done].
  destruct (N.eqb_spec a 0); done.
Qed.

Lemma strip_nil_zeros (l : list N) :
  strip_trailing_zeros l = [] <-> Forall (fun z => z = 0%N) l.
Proof.
  induction l as [|x l IH]; simpl.
  - split; [constructor | done].
  - destruct (strip_trailing_zeros l) as [|y ys].
    + destruct (N.eqb_spec x 0) as [->|Hx].
      * split; [|done]. intros _. constructor; [done|]. by apply IH.
      * split; [done|]. intros H. by inversion H.
    + split; [done|]. intros H. inversion H as [|? ? _ Hl]. by apply IH in Hl.
Qed.

(** Between final releases only the release segments count. *)
Lemma compare_releases (a b : list N) :
  compare_key (cmpkey (release_version a)) (cmpkey (release_version b))
  = compare_tuple (strip_trailing_zeros a) (strip_trailing_zeros b).
Proof.
  unfold compare_key, cmpkey, release_version.
  cbn -[compare_tuple strip_trailing_zeros].
  by destruct (compare_tuple (strip_trailing_zeros a) (strip_trailing_zeros b)).
Qed.

Lemma release_in_range (segments : list N) :
  version_le min_supported_version (release_version segments)
  && version_le (release_version segments) max_supported_version
  = match compare_tuple [4; 3; 4]%N (strip_trailing_zeros segments) with
    | Gt => false
    | _ => true
    end
    && match compare_tuple (strip_trailing_zeros segments) [4; 4]%N with
       | Gt => false
       | _ => true
       end.
Proof.
  unfold version_le, min_supported_version, max_supported_version.
  by rewrite !compare_releases.
Qed.

Lemma tuple_in_range (t : list N) :
  match compare_tuple [4; 3; 4]%N t with Gt => false | _ => true end
  && match compare_tuple t [4; 4]%N with Gt => false | _ => true end = true
  <-> (exists n r, t = 4%N :: 3%N :: n :: r /\ (4 <= n)%N) \/ t = [4; 4]%N.
Proof.
  destruct t as [|a [|b [|c r]]]; cbn [compare_tuple].
  - split; [done|]. by intros [(n & r & ? & _) | ?].
  - destruct (N.compare_spec 4 a); destruct (N.compare_spec a 4); cbn [lex andb];
      (split; [try done; lia | by intros [(n & r' & ? & _) | ?]]).
  - destruct (N.compare_spec 4 a); destruct (N.compare_spec a 4); cbn [lex andb];
      try lia; try (split; [done | intros [(n & r' & ? & _) | ?]; simplify_eq; lia]).
    subst a.
    destruct (N.compare_spec 3 b); destruct (N.compare_spec b 4); cbn [lex andb];
      try lia;
      try (split; [done | intros [(n & r' & ? & _) | ?]; simplify_eq; lia]).
    + subst b. split; [intros _; by right | done].
  - destruct (N.compare_spec 4 a); destruct (N.compare_spec a 4); cbn [lex andb];
      try lia; try (split; [done | intros [(n & r' & ? & _) | ?]; simplify_eq; lia]).
    subst a.
    destruct (N.compare_spec 3 b); destruct (N.compare_spec b 4); cbn [lex andb];
      try lia;
      try (split; [done | intros [(n & r' & ? & _) | ?]; simplify_eq; lia]).
    subst b.
    destruct (N.compare_spec 4 c); cbn [lex andb].
    + subst c. split; [intros _; left; exists 4%N, r; split; [done|lia] | ].
      intros _. by destruct r.
    + split; [intros _; left; exists c, r; split; [done|lia] | done].
    + split; [by destruct r | intros [(n & r' & ? & ?) | ?]; simplify_eq; lia].
Qed.

(** X10: for a final release, given by its segments (no epoch, pre-release,
    post-release or development part), the gate lets the manager through
    exactly when the release is 4.3.n for some n >= 4, followed by any
    further segments, or 4.4 followed by zeros only: 4.3.4 and 4.4.0 pass,
    4.3.3, 4.4.1 and 4.5 do not. *)
Theorem supported_releases (segments : list N) (s : State) :
  current_qbit_version (manager s) = release_version segments ->
  (exists s', _version_validator s = (Ret tt, s')) <->
  (exists n rest, segments = 4%N :: 3%N :: n :: rest /\ (4 <= n)%N) \/
  (exists zeros, segments = 4%N :: 4%N :: zeros /\ Forall (fun z => z = 0%N) zeros).
Proof.
  intros Hv.
  assert ((exists s', _version_validator s = (Ret tt, s')) <->
          version_le min_supported_version (release_version segments)
          && version_le (release_version segments) max_supported_version = true)
    as ->.
  { rewrite <- Hv.
    destruct (version_le min_supported_version (current_qbit_version (manager s))
              && version_le (current_qbit_version (manager s)) max_supported_version)
      eqn:Hr.
    - split; [done|]. intros _.
      destruct (_validated_version (manager s)) eqn:Hval.
      + rewrite version_validator_supported by done. eauto.
      + rewrite version_validator_assumed by done. eauto.
    - rewrite version_validator_unsupported by done. split; [by intros [s' ?] | done]. }
  rewrite release_in_range, tuple_in_range. split.
  - intros [(n & r & Hstrip & Hn) | Hstrip].
    + left.
      apply strip_cons_inv in Hstrip as (l1 & -> & Hstrip).
      apply strip_cons_inv in Hstrip as (l2 & -> & Hstrip).
      apply strip_cons_inv in Hstrip as (l3 & -> & _).
      by exists n, l3.
    + right.
      apply strip_cons_inv in Hstrip as (l1 & -> & Hstrip).
      apply strip_cons_inv in Hstrip as (l2 & -> & Hstrip).
      exists l2. split; [done|]. by apply strip_nil_zeros.
  - intros [(n & rest & -> & Hn) | (zeros & -> & Hz)].
    + left. exists n, (strip_trailing_zeros rest). split; [|done].
      rewrite !strip_cons_nonzero by lia. done.
    + right. apply strip_nil_zeros in Hz.
      rewrite !strip_cons_nonzero by lia. by rewrite Hz.
Qed.

(** X11: when a category raises an exception of class [Exception] while
    [get_child_processes] runs, and [kill] returns, the module-level [run]
    returns normally after its kill loop: from an empty registry the process
    ends as after a successful run, with no exit status set by a [sys.exit],
    and the exit hook issues nothing. *)
Theorem aggregation_exception_is_swallowed env s0 s e s1 :
  constructed env s0 s ->
  CHILD_PROCESSES s0 = [] ->
  get_child_processes env s = (Raise e, s1) ->
  isinstance e ExceptionC = true ->
  (forall h p, p ∈ child_processes (manager s1) -> process_call env h OpKill p = None) ->
  main env s0 =
    (Completed,
     add_events
       (Log module_logger NOTICE
          "Attempting to terminate child processes, please wait a moment." []
        :: map (Proc OpKill) (child_processes (manager s1)))
       s1).
Proof.
  intros Hcons Hempty Hspawn He Hok.
  assert (CHILD_PROCESSES s1 = []) as Hreg.
  { rewrite (get_child_processes_registry _ _ _ _ Hspawn).
    destruct Hcons as [_ Hinit]. by rewrite (init_registry _ _ _ _ Hinit). }
  pose proof (spawn_and_run_not_spawned _ _ _ _ Hspawn) as Hbody.
  unfold main. rewrite (run_supervises _ _ _ Hcons).
  rewrite (supervise_exception _ _ _ _ Hbody He).
  rewrite for_each_process_total by done.
  rewrite <- add_events_cons. simpl.
  by rewrite cleanup_empty_registry.
Qed.

(** ** Further properties at sample runs *)

Lemma early_exit_before_construction_witness :
  main early_exit_env fresh = (Exited 0, add_event ProcessFlags fresh).
Proof.
  apply (proj2 (early_exit_before_construction early_exit_env fresh eq_refl)).
  reflexivity.
Defined.

Lemma run_failure_shape_witness :
  CHILD_PROCESSES
    (qBitManager_run broken_join_env
       (set_CHILD_PROCESSES [1%nat] (spawned broken_join_env))).2
  = CHILD_PROCESSES (set_CHILD_PROCESSES [1%nat] (spawned broken_join_env)).
Proof.
  assert (qBitManager_run broken_join_env
            (set_CHILD_PROCESSES [1%nat] (spawned broken_join_env))
          = (Raise (SystemExit 1),
             (qBitManager_run broken_join_env
                (set_CHILD_PROCESSES [1%nat] (spawned broken_join_env))).2)) as Hrun
    by (vm_compute; reflexivity).
  exact (proj1 (proj2 (run_failure_shape _ _ _ _ Hrun))).
Defined.


Lemma aggregation_asks_in_order_witness :
  CHILD_PROCESSES (spawned supported_env) = CHILD_PROCESSES (built supported_env).
Proof.
  assert (get_child_processes supported_env (built supported_env)
          = (Ret [1%nat], spawned supported_env)) as Hspawn
    by (vm_compute; reflexivity).
  exact (proj1 (aggregation_asks_in_order _ _ _ _ Hspawn)).
Defined.

Lemma failure_during_aggregation_witness :
  main interrupted_spawn_env fresh =
    (Exited 0,
     add_event (Log module_logger HNOTICE "Detected Ctrl+C - Terminating process" [])
       (spawned interrupted_spawn_env)).
Proof.
  assert (constructed interrupted_spawn_env fresh (built interrupted_spawn_env)) as Hcons
    by (split; vm_compute; reflexivity).
  assert (get_child_processes interrupted_spawn_env (built interrupted_spawn_env)
          = (Raise KeyboardInterrupt, spawned interrupted_spawn_env)) as Hspawn
    by (vm_compute; reflexivity).
  exact (proj1 (proj2 (failure_during_aggregation _ _ _ _ _ Hcons eq_refl Hspawn eq_refl))
           eq_refl).
Defined.

Lemma liveness_cached_until_expiry_witness :
  is_alive crashing_client_env (is_alive supported_env fresh).2
    = (Ret true, (is_alive supported_env fresh).2).
Proof.
  apply (proj1 (liveness_cached_until_expiry supported_env fresh "v4.3.5" eq_refl eq_refl
                  crashing_client_env)).
  vm_compute. reflexivity.
Defined.

Lemma is_alive_frame_witness :
  should_delay_torrent_scan (manager (is_alive unreachable_env fresh).2)
  = should_delay_torrent_scan (manager fresh) || true.
Proof.
  assert (is_alive unreachable_env fresh
          = (Ret false, (is_alive unreachable_env fresh).2)) as Halive
    by (vm_compute; reflexivity).
  destruct (is_alive_frame _ _ _ _ Halive) as (_ & _ & _ & _ & _ & Hflag & _).
  exact Hflag.
Defined.

Lemma started_workers_are_killed_witness :
  exists added,
    trace (supervise broken_join_env (built broken_join_env)).2
      = trace (built broken_join_env) ++ added /\
    (forall p,
       issued OpStart p added = true ->
       p ∈ CHILD_PROCESSES (supervise broken_join_env (built broken_join_env)).2) /\
    cleanup broken_join_env (supervise broken_join_env (built broken_join_env)).2 =
      (Ret tt,
       add_events
         (flat_map (fun p => [Kill p; Terminate p])
            (CHILD_PROCESSES (supervise broken_join_env (built broken_join_env)).2))
         (supervise broken_join_env (built broken_join_env)).2).
Proof.
  assert (registers broken_join_env) as Hreg.
  { intros h arr cps n ps cps' Hspawn. by injection Hspawn as <- <- <-. }
  assert (child_processes (manager (built broken_join_env)) = []) as Hempty
    by (vm_compute; reflexivity).
  assert (supervise broken_join_env (built broken_join_env)
          = (Raise (SystemExit 1), (supervise broken_join_env (built broken_join_env)).2))
    as Hsup by (vm_compute; reflexivity).
  exact (started_workers_are_killed _ _ _ _ Hreg Hempty
           (fun h p => conj eq_refl eq_refl) Hsup).
Defined.

Lemma supported_releases_witness :
  exists s', _version_validator (holding v4_3_5 true) = (Ret tt, s').
Proof.
  apply (proj2 (supported_releases [4; 3; 5]%N (holding v4_3_5 true) eq_refl)).
  left. exists 5%N, []. split; [reflexivity|]. discriminate.
Defined.

Lemma aggregation_exception_is_swallowed_witness :
  main failing_spawn_env fresh =
    (Completed,
     add_events
       (Log module_logger NOTICE
          "Attempting to terminate child processes, please wait a moment." []
        :: map (Proc OpKill) (child_processes (manager (spawned failing_spawn_env))))
       (spawned failing_spawn_env)).
Proof.
  assert (constructed failing_spawn_env fresh (built failing_spawn_env)) as Hcons
    by (split; vm_compute; reflexivity).
  assert (get_child_processes failing_spawn_env (built failing_spawn_env)
          = (Raise (OtherException "OSError"), spawned failing_spawn_env)) as Hspawn
    by (vm_compute; reflexivity).
  exact (aggregation_exception_is_swallowed _ _ _ _ _ Hcons eq_refl Hspawn eq_refl
           (fun h p _ => eq_refl)).
Defined.

(** * Where the claims on failures stop holding *)

(** The second half of C3 as written fails for an error of the application
    that is derived from [requests.RequestException]: the client rejects the
    credentials, and [is_alive] does not let the exception through but logs,
    sets the delay flag and returns [False]. *)
Lemma application_error_is_swallowed :
  client_app_version login_failed_env (trace fresh)
    = Raise (RequestException "qbittorrentapi.LoginFailed") /\
  (is_alive login_failed_env fresh).1 = Ret false /\
  should_delay_torrent_scan (manager (is_alive login_failed_env fresh).2) = true.
Proof. repeat split; vm_compute; reflexivity. Qed.



(** ** The workers that run, and what the hook does to them *)









(** * The amended claim on failures during [run] *)


